(** * AutomationPodcastReaction: a shallow embedding of [main.py]

    The development follows the classes of [main.py] one module each:
    [EventParser], [AudioGenerator], [SubtitleGenerator], [DialogClip] and
    [VideoCreator].  Python strings are lists of Unicode code points.  A
    Python float is the real number it stands for, and float64 arithmetic
    is the exact operation followed by a rounding that is a parameter, as
    is numpy's sine.  The other third-party libraries (PIL, moviepy, gTTS,
    pyht) appear as parameters of the sections that use them; moviepy's
    [VideoClip] constructor, which calls back into [DialogClip], is
    written out. *)

From Equations Require Import Equations.
From stdpp Require Import base option list gmap strings pretty.
From Stdlib Require Import Reals Lra Lia ZArith NArith.

Local Open Scope Z_scope.

(** ** Python strings *)

(** A Python [str] is a sequence of code points. *)
Abbreviation text := (list N).

Module PyStr.

(** [py "..."] reads a literal: one code point per character. *)
Definition py (s : string) : text :=
  map Ascii.N_of_ascii (String.list_ascii_of_string s).

(** [str.isspace] for one code point: the characters that [str.strip]
    and [str.split] (without argument) treat as white space. *)
Definition isspace (c : N) : bool :=
  ((9 <=? c) && (c <=? 13) || (28 <=? c) && (c <=? 32)
   || (c =? 133) || (c =? 160) || (c =? 5760)
   || (8192 <=? c) && (c <=? 8202)
   || (c =? 8232) || (c =? 8233) || (c =? 8239) || (c =? 8287)
   || (c =? 12288))%N.

Fixpoint lstrip (s : text) : text :=
  match s with
  | c :: s' => if isspace c then lstrip s' else s
  | [] => []
  end.

Definition rstrip (s : text) : text := reverse (lstrip (reverse s)).

(** [s.strip()] *)
Definition strip (s : text) : text := rstrip (lstrip s).

(** [s.split()]: maximal runs of characters that are not white space;
    [cur] is the run being read. *)
Fixpoint split_from (cur : text) (s : text) : list text :=
  match s with
  | [] => match cur with [] => [] | _ => [cur] end
  | c :: s' =>
      if isspace c
      then match cur with
           | [] => split_from [] s'
           | _ => cur :: split_from [] s'
           end
      else split_from (cur ++ [c]) s'
  end.

Definition split (s : text) : list text := split_from [] s.

(** [sep.join(parts)] *)
Fixpoint join (sep : text) (parts : list text) : text :=
  match parts with
  | [] => []
  | [p] => p
  | p :: ps => p ++ sep ++ join sep ps
  end.

(** [s.startswith(p)] *)
Fixpoint startswith (p s : text) : bool :=
  match p, s with
  | [], _ => true
  | a :: p', b :: s' => (a =? b)%N && startswith p' s'
  | _ :: _, [] => false
  end.

(** [re.search(p, s)] for a pattern that is an escaped literal [p]:
    does [p] occur somewhere in [s]? *)
Fixpoint re_search (p s : text) : bool :=
  startswith p s
  || match s with [] => false | _ :: s' => re_search p s' end.

(** [re.sub(p, '', s)] for a literal [p]: one scan from the left that
    drops each match and resumes right after it. *)
Equations? re_sub (p s : text) : text by wf (length s) lt :=
re_sub p [] := [];
re_sub p (c :: s') with startswith p (c :: s') := {
  | true => re_sub p (drop (Nat.pred (length p)) s')
  | false => c :: re_sub p s' }.
Proof. all: try (rewrite length_drop); simpl; lia. Qed.

End PyStr.

Import PyStr.

(** ** EventParser *)

Module EventParser.

(** [EVENT_PATTERNS], in the insertion order the dict iterates in.  Each
    regular expression is an escaped literal; it is kept here as the
    literal it matches. *)
Definition EVENT_PATTERNS : list (string * text) :=
  [ ("laugh"%string, py "[laugh]");
    ("surprise"%string, py "[surprise]");
    ("sad"%string, py "[sad]");
    ("excited"%string, py "[excited]");
    ("angry"%string, py "[angry]");
    ("confused"%string, py "[confused]") ].

(** One turn of the loop of [parse_events]. *)
Definition parse_step (st : text * list (R * string)) (ep : string * text)
  : text * list (R * string) :=
  let '(txt, events) := st in
  let '(event_type, pattern) := ep in
  if re_search pattern txt
  then (strip (re_sub pattern txt), events ++ [(0.5%R, event_type)])
  else (txt, events).

Definition parse_events (txt : text) : text * list (R * string) :=
  foldl parse_step (txt, []) EVENT_PATTERNS.

End EventParser.

(** ** Exceptions, log records and results *)

(** A raised exception, by the name of its class. *)
Inductive exn : Set := Exception (name : string).

(** What the module-level [logger] received. *)
Inductive log_record : Type :=
| LogInfo (message : string) (detail : text)
| LogError (message : string) (e : exn)
| LogEvent (event_type : string) (t : R).

(** A call either raises or returns. *)
Inductive outcome (A : Type) : Type :=
| Raises (e : exn)
| Returns (a : A).
Arguments Raises {A} e.
Arguments Returns {A} a.

(** ** AudioGenerator *)

Module AudioGenerator.

(** The files on disk and the log. *)
Record world : Type := World {
  files : gmap string (list N);
  log : list log_record
}.

Definition emit (r : log_record) (w : world) : world :=
  World (files w) (log w ++ [r]).

Section Providers.
(** What the body of each [try] block does to the files, and the
    exception it raises if it does: [gTTS(text, lang).save(file)] and
    the streaming of [Client.tts] chunks into [file]. *)
Variable gtts_save :
  text -> string -> string -> gmap string (list N)
  -> option exn * gmap string (list N).
Variable playht_stream :
  text -> string -> string -> gmap string (list N)
  -> option exn * gmap string (list N).

(** [generate_gtts]: the [except Exception] clause logs and falls
    through, so the call returns [None] either way. *)
Definition generate_gtts (txt : text) (output_file lang : string)
    (w : world) : outcome unit * world :=
  match gtts_save txt lang output_file (files w) with
  | (None, fs) =>
      (Returns (),
       emit (LogInfo "gTTS Audio generated" (py output_file))
            (World fs (log w)))
  | (Some e, fs) =>
      (Returns (),
       emit (LogError "gTTS audio generation error" e)
            (World fs (log w)))
  end.

Definition generate_playht (txt : text) (output_file voice_url : string)
    (w : world) : outcome unit * world :=
  match playht_stream txt voice_url output_file (files w) with
  | (None, fs) =>
      (Returns (),
       emit (LogInfo "Play.ht Audio generated" (py output_file))
            (World fs (log w)))
  | (Some e, fs) =>
      (Returns (),
       emit (LogError "Play.ht audio generation error" e)
            (World fs (log w)))
  end.
End Providers.

End AudioGenerator.

(** ** Images *)

(** A pixel with its alpha, and a PIL image: its mode, its size and its
    pixels row by row.  In a mode without alpha the fourth component of a
    pixel is not used. *)
Abbreviation pixel := (N * N * N * N)%type.

Record image : Type := Image {
  img_mode : string;
  img_width : Z;
  img_height : Z;
  img_pixels : list pixel
}.

(** The last axis of [np.array(img)]: three channels, four channels; the
    other modes give fewer channels or an array without a channel axis. *)
Definition three_band (mode : string) : bool :=
  bool_decide (mode ∈ ["RGB"; "YCbCr"; "LAB"; "HSV"]%string).

Definition four_band (mode : string) : bool :=
  bool_decide (mode ∈ ["RGBA"; "CMYK"; "RGBX"; "RGBa"]%string).

(** A font object: the TrueType face at a size, or PIL's built-in one. *)
Inductive font : Set :=
| TrueType (size : Z)
| DefaultFont.

(** ** SubtitleGenerator *)

Module SubtitleGenerator.

(** [Image.new('RGBA', (w, h), (0, 0, 0, 0))] *)
Definition new_rgba (w h : Z) : image :=
  Image "RGBA" w h (replicate (Z.to_nat (w * h)) (0, 0, 0, 0)%N).

(** What the loop of [create_subtitle_mask] leaves behind. *)
Record fitted : Type := Fitted {
  current_fontsize : Z;
  used_font : font;
  wrapped_lines : list text
}.

Section Fonts.
(** Whether [ImageFont.truetype] can load the face at a size. *)
Variable loadable : Z -> bool.
(** [draw.textbbox((0, 0), s, font)] and
    [draw.multiline_textbbox((0, 0), s, font)]. *)
Variable textbbox : font -> text -> Z * Z * Z * Z.
Variable multiline_textbbox : font -> text -> Z * Z * Z * Z.
(** [draw.multiline_text(xy, s, font, fill, align='center')] on a mask. *)
Variable multiline_text : image -> Z * Z -> text -> font -> pixel -> image.

Definition truetype (size : Z) : outcome font :=
  if loadable size then Returns (TrueType size)
  else Raises (Exception "OSError").

(** [bbox[2] - bbox[0]] of a line. *)
Definition line_width (f : font) (s : text) : Z :=
  let '(x0, _, x1, _) := textbbox f s in x1 - x0.

(** The [for word in words] loop of [wrap_text]. *)
Fixpoint wrap_words (f : font) (max_width : Z) (words : list text)
    (lines : list text) (current_line : list text)
    : list text * list text :=
  match words with
  | [] => (lines, current_line)
  | word :: rest =>
      let test_line := join (py " ") (current_line ++ [word]) in
      if line_width f test_line <=? max_width
      then wrap_words f max_width rest lines (current_line ++ [word])
      else wrap_words f max_width rest
             (lines ++ [join (py " ") current_line]) [word]
  end.

Definition wrap_text (txt : text) (f : font) (max_width : Z)
    : list text :=
  let '(lines, current_line) := wrap_words f max_width (split txt) [] [] in
  match current_line with
  | [] => lines
  | _ => lines ++ [join (py " ") current_line]
  end.

(** The [while current_fontsize > 20] loop.  [f] and [lines] are the
    values of [font] and [wrapped_lines] when the test is made. *)
Equations? fit_font (txt : text) (max_width : Z) (size : Z) (f : font)
    (lines : list text) : outcome fitted
    by wf (Z.to_nat (size - 20)) lt :=
fit_font txt max_width size f lines with decide (size > 20) := {
  | right _ => Returns (Fitted size f lines)
  | left _ with truetype size := {
      | Raises e => Raises e
      | Returns f' =>
          if decide (length (wrap_text txt f' max_width) <= 3)%nat
          then Returns (Fitted size f' (wrap_text txt f' max_width))
          else fit_font txt max_width (size - 2) f'
                 (wrap_text txt f' max_width) } }.
Proof. lia. Qed.

(** The font of the first [try], then the loop. *)
Definition layout (w : Z) (txt : text) (fontsize : Z) : outcome fitted :=
  let f0 := match truetype fontsize with
            | Returns f => f
            | Raises _ => DefaultFont
            end in
  fit_font txt (w - 100) fontsize f0 [].

(** The 25 outline passes, [offset_x] outermost. *)
Definition outline_offsets : list (Z * Z) :=
  x ← [-2; -1; 0; 1; 2]; y ← [-2; -1; 0; 1; 2]; [(x, y)].

Definition create_subtitle_mask (w h : Z) (txt : text) (fontsize : Z)
    : outcome image :=
  match layout w txt fontsize with
  | Raises e => Raises e
  | Returns fit =>
      let mask := new_rgba w h in
      let f := used_font fit in
      let wrapped_text := join [10%N] (wrapped_lines fit) in
      let '(bx0, by0, bx1, by1) := multiline_textbbox f wrapped_text in
      let text_width := bx1 - bx0 in
      let text_height := by1 - by0 in
      let x := (w - text_width) `div` 2 in
      let y := (h - text_height) `div` 2 in
      let outlined :=
        foldl (fun m '(ox, oy) =>
                 multiline_text m (x + ox, y + oy) wrapped_text f
                   (0, 0, 0, 255)%N)
              mask outline_offsets in
      Returns (multiline_text outlined (x, y) wrapped_text f
                 (255, 255, 255, 255)%N)
  end.
End Fonts.

End SubtitleGenerator.

(** ** DialogClip *)

Module DialogClip.

Definition EVENT_MOVEMENTS : gmap string (gmap string Z) :=
  list_to_map
    [ ("laugh"%string,
       list_to_map [("shake_amount"%string, 15); ("frequency"%string, 20)]);
      ("surprise"%string,
       list_to_map [("shake_amount"%string, 20); ("frequency"%string, 30)]);
      ("sad"%string,
       list_to_map [("shake_amount"%string, 5); ("frequency"%string, 10)]);
      ("excited"%string,
       list_to_map [("shake_amount"%string, 25); ("frequency"%string, 40)]);
      ("angry"%string,
       list_to_map [("shake_amount"%string, 30); ("frequency"%string, 50)]);
      ("confused"%string,
       list_to_map [("shake_amount"%string, 10); ("frequency"%string, 15)]) ].

(** The object: its images are references into the store, shared by all
    the clips built from them.  A sprite is [None] when
    [ImageProcessor.scale_image] failed. *)
Record clip : Type := Clip {
  background : positive;
  char1 : option positive;
  char2 : option positive;
  clip_text : text;
  speaking_char : Z;
  duration : R;
  events : list (R * string);
  frame_width : Z;
  frame_height : Z
}.

(** [__init__]; [events or []] is [events] for a list. *)
Definition init (bg : positive) (c1 c2 : option positive) (txt : text)
    (speaking : Z)
    (dur : R) (evs : list (R * string)) : clip :=
  Clip bg c1 c2 txt speaking dur evs 1920 1080.

(** [int(x)] on a float: the fractional part is dropped, towards zero. *)
Definition py_int (x : R) : Z :=
  if Rle_dec 0 x then Int_part x else (- Int_part (- x))%Z.

Definition shake_amount_of (event_type : string) : Z :=
  default 5 (default ∅ (EVENT_MOVEMENTS !! event_type) !! "shake_amount"%string).

Definition frequency_of (event_type : string) : Z :=
  default 10 (default ∅ (EVENT_MOVEMENTS !! event_type) !! "frequency"%string).

Section Floats.
(** The numbers of [__call__] are float64: a float is the real number it
    stands for, and an operation on floats gives the exact result rounded
    to a float.  [fl] is that rounding and [np_sin] is numpy's sine, a
    float for a float. *)
Variable fl : R -> R.
Variable np_sin : R -> R.

(** [int(shake_amount * np.sin(t * 10))] with [shake_amount = 5] *)
Definition idle_offset (t : R) : Z :=
  py_int (fl (IZR 5 * np_sin (fl (t * 10)))).

(** [int(shake_amount * np.sin(t * frequency))] *)
Definition event_offset (event_type : string) (t : R) : Z :=
  py_int (fl (IZR (shake_amount_of event_type)
              * np_sin (fl (t * IZR (frequency_of event_type))))).

(** [t >= event_time and t < event_time + 0.5] *)
Definition active (t event_time : R) : bool :=
  if Rge_dec t event_time
  then if Rlt_dec t (fl (event_time + 0.5)) then true else false
  else false.

(** One turn of the loop over [self.events]: the offset so far and the
    records logged so far. *)
Definition event_step (t : R) (st : Z * list log_record)
    (ev : R * string) : Z * list log_record :=
  let '(offset, records) := st in
  let '(event_time, event_type) := ev in
  if active t event_time
  then (event_offset event_type t, records ++ [LogEvent event_type t])
  else (offset, records).

Definition shake (evs : list (R * string)) (t : R) : Z * list log_record :=
  foldl (event_step t) (idle_offset t, []) evs.
End Floats.

(** The two boxes handed to [paste]: character 1, then character 2. *)
Definition placements (self : clip) (char2_width offset : Z)
    : (Z * Z) * (Z * Z) :=
  let char_height := 600 in
  let margin := 10 in
  let char1_x := margin in
  let char2_x := frame_width self - char2_width - margin in
  let char_y := frame_height self - char_height in
  if decide (speaking_char self = 1)
  then ((char1_x + offset, char_y), (char2_x, char_y))
  else ((char1_x, char_y), (char2_x + offset, char_y)).

(** The pixels of [frame_array] after
    [frame_array[alpha_mask] = subtitle[alpha_mask][:, :3]]: the caption's
    colour wherever its alpha is not 0. *)
Definition overlay_pixels (frame_px subtitle_px : list pixel)
    : list (N * N * N) :=
  zip_with (fun fp sp =>
              let '(r, g, b, a) := sp in
              let '(fr, fg, fb, _) := fp in
              if (0 <? a)%N then (r, g, b) else (fr, fg, fb))
           frame_px subtitle_px.

(** [frame_array = np.array(frame)], [alpha_mask = subtitle[:, :, 3] > 0]
    and the masked assignment.  numpy raises [IndexError] when the caption
    has no fourth channel or when the mask has not the height and width of
    the frame, and [ValueError] when the frame has not the three channels
    of the values assigned. *)
Definition overlay (frame subtitle : image) : outcome (list (N * N * N)) :=
  if negb (four_band (img_mode subtitle))
  then Raises (Exception "IndexError")
  else if negb (bool_decide (img_width subtitle = img_width frame
                             ∧ img_height subtitle = img_height frame))
  then Raises (Exception "IndexError")
  else if negb (three_band (img_mode frame))
  then Raises (Exception "ValueError")
  else Returns (overlay_pixels (img_pixels frame) (img_pixels subtitle)).

(** The images behind the references, and the log. *)
Record store : Type := Store {
  heap : gmap positive image;
  slog : list log_record
}.

Section Render.
Variable fl : R -> R.
Variable np_sin : R -> R.
Variable loadable : Z -> bool.
Variable textbbox : font -> text -> Z * Z * Z * Z.
Variable multiline_textbbox : font -> text -> Z * Z * Z * Z.
Variable multiline_text : image -> Z * Z -> text -> font -> pixel -> image.
(** [dst.paste(src, box, src)]: the pixels of [dst] afterwards. *)
Variable paste : image -> image -> Z * Z -> image.

(** [dst.paste(src, box, src)] through the references. *)
Definition paste_into (dst src : positive) (box : Z * Z) (s : store)
    : outcome unit * store :=
  match heap s !! dst, heap s !! src with
  | Some d, Some i =>
      (Returns (), Store (<[dst := paste d i box]> (heap s)) (slog s))
  | _, _ => (Raises (Exception "ReferenceError"), s)
  end.

(** [__call__(self, t)] *)
Definition call (self : clip) (t : R) (s : store)
    : outcome (list (N * N * N)) * store :=
  match heap s !! background self with
  | None => (Raises (Exception "ReferenceError"), s)
  | Some bg =>
      let frame := fresh (dom (heap s)) in
      let s1 := Store (<[frame := bg]> (heap s)) (slog s) in
      match char1 self, char2 self with
      | Some r1, Some r2 =>
          match heap s1 !! r1, heap s1 !! r2 with
          | Some c1, Some c2 =>
              let '(offset, records) := shake fl np_sin (events self) t in
              let s2 := Store (heap s1) (slog s1 ++ records) in
              let '(box1, box2) :=
                placements self (img_width c2) offset in
              match paste_into frame r1 box1 s2 with
              | (Raises e, s3) => (Raises e, s3)
              | (Returns _, s3) =>
                  match paste_into frame r2 box2 s3 with
                  | (Raises e, s4) => (Raises e, s4)
                  | (Returns _, s4) =>
                      match SubtitleGenerator.create_subtitle_mask
                              loadable textbbox multiline_textbbox
                              multiline_text
                              (frame_width self) (frame_height self)
                              (clip_text self) 48
                      with
                      | Raises e => (Raises e, s4)
                      | Returns subtitle =>
                          match heap s4 !! frame with
                          | Some f => (overlay f subtitle, s4)
                          | None =>
                              (Raises (Exception "ReferenceError"), s4)
                          end
                      end
                  end
              end
          | _, _ => (Raises (Exception "ReferenceError"), s1)
          end
      | _, _ => (Raises (Exception "AttributeError"), s1)
      end
  end.
End Render.

End DialogClip.

(** ** Character and VideoCreator *)

Module VideoCreator.
Import AudioGenerator.

Record character : Type := Character {
  name : string;
  image_path : string;
  voice_url : string;
  gender : string;
  scaled_image : option positive
}.

(** A clip of the timeline: the frame function, its declared duration and
    the audio file attached by [set_audio], if any. *)
Record video_clip : Type := Movie {
  make_frame : DialogClip.clip;
  clip_duration : R;
  audio : option string
}.

(** [clip.set_audio(AudioFileClip(f))]: a copy of the clip with the audio. *)
Definition set_audio (c : video_clip) (f : string) : video_clip :=
  Movie (make_frame c) (clip_duration c) (Some f).

(** The concatenated video: each clip with its start time, and the
    length of the whole. *)
Record timeline : Type := Timeline {
  placed : list (R * video_clip);
  total_duration : R
}.

Definition host (sprite : option positive) : character :=
  Character "Host" "karakter/karaktercowok4.png"
    "s3://voice-cloning-zero-shot/688d0200-7415-42b4-8726-e2f5693aaac8/williamnarrativesaad/manifest.json"
    "male" sprite.

Definition maya (sprite : option positive) : character :=
  Character "Maya" "karakter/karaktercewek3.png"
    "s3://voice-cloning-zero-shot/a59cb96d-bba8-4e24-81f2-e60b888a0275/charlottenarrativesaad/manifest.json"
    "female" sprite.

(** [f"dialog_{i}.mp3"] *)
Definition audio_file (i : nat) : string :=
  "dialog_" +:+ pretty i +:+ ".mp3".

(** [i % 4 in [0, 1]] *)
Definition in_first_half (i : nat) : bool :=
  bool_decide ((i mod 4)%nat ∈ [0; 1]%nat).

(** The start times [concatenate_videoclips] gives, from [start] on. *)
Fixpoint place_from (start : R) (clips : list video_clip)
    : list (R * video_clip) :=
  match clips with
  | [] => []
  | c :: rest => (start, c) :: place_from (start + clip_duration c) rest
  end.

(** Modelled from the spec: [concatenate_videoclips] is moviepy's and is
    not in the repository.  The clips are played in the order given, one
    right after the other: the first starts at 0, each next one starts
    when the declared duration of the one before it ends, and the whole
    lasts until the last one ends. *)
Definition concatenate_videoclips (clips : list video_clip) : timeline :=
  Timeline (place_from 0 clips)
           (foldl (fun acc c => acc + clip_duration c)%R 0%R clips).

Section Pipeline.
Variable fl : R -> R.
Variable np_sin : R -> R.
Variable loadable : Z -> bool.
Variable textbbox : font -> text -> Z * Z * Z * Z.
Variable multiline_textbbox : font -> text -> Z * Z * Z * Z.
Variable multiline_text : image -> Z * Z -> text -> font -> pixel -> image.
Variable paste : image -> image -> Z * Z -> image.
Variable gtts_save :
  text -> string -> string -> gmap string (list N)
  -> option exn * gmap string (list N).
Variable playht_stream :
  text -> string -> string -> gmap string (list N)
  -> option exn * gmap string (list N).
(** [AudioFileClip(f).duration] from the bytes of [f], when they decode. *)
Variable audio_duration : list N -> option R.
(** [final_video.write_videofile(output_path, ...)]: the exception it
    raises, if any, and the files and the log it leaves. *)
Variable write_videofile : timeline -> string -> world -> option exn * world.

Definition AudioFileClip (f : string) (w : world) : outcome R :=
  match files w !! f with
  | None => Raises (Exception "OSError")
  | Some bytes =>
      match audio_duration bytes with
      | None => Raises (Exception "OSError")
      | Some d => Returns d
      end
  end.

(** [VideoClip(dialog, duration=duration)]: moviepy's constructor reads the
    size of the clip off [dialog(0)], so the first frame is rendered, with
    what that does to the images and the log, when the clip is made; an
    exception of the renderer leaves the constructor. *)
Definition VideoClip (dialog : DialogClip.clip) (duration : R)
    (w : world) (h : gmap positive image)
    : outcome video_clip * world * gmap positive image :=
  match DialogClip.call fl np_sin loadable textbbox multiline_textbbox
          multiline_text paste dialog 0 (DialogClip.Store h (log w))
  with
  | (Raises e, s) =>
      (Raises e, World (files w) (DialogClip.slog s), DialogClip.heap s)
  | (Returns _, s) =>
      (Returns (Movie dialog duration None),
       World (files w) (DialogClip.slog s), DialogClip.heap s)
  end.

(** The first loop: parse every text, log what was found. *)
Fixpoint parse_texts (texts : list text) (w : world)
    : list text * list (list (R * string)) * world :=
  match texts with
  | [] => ([], [], w)
  | txt :: rest =>
      let '(cleaned_text, text_events) := EventParser.parse_events txt in
      let w1 := emit (LogInfo "Processed Text" cleaned_text) w in
      let '(processed_texts, all_events, w2) := parse_texts rest w1 in
      (cleaned_text :: processed_texts, text_events :: all_events, w2)
  end.

(** The second loop, over
    [zip(processed_texts, audio_files, languages, all_events)]. *)
Fixpoint generate_all (sprite1 sprite2 : option positive) (i : nat)
    (jobs : list (text * (string * (string * list (R * string)))))
    (w : world) : outcome unit * world :=
  match jobs with
  | [] => (Returns (), w)
  | (txt, (output_file, (lang, _))) :: rest =>
      let current_character :=
        if in_first_half i then host sprite1 else maya sprite2 in
      let r :=
        if decide (lang = "en"%string)
        then generate_playht playht_stream txt output_file
               (voice_url current_character) w
        else generate_gtts gtts_save txt output_file "id" w in
      match r with
      | (Raises e, w1) => (Raises e, w1)
      | (Returns _, w1) => generate_all sprite1 sprite2 (S i) rest w1
      end
  end.

(** The third loop, over [zip(processed_texts, audio_files, all_events)]:
    the files and the log, and the images behind the references. *)
Fixpoint make_clips (bg : positive) (sprite1 sprite2 : option positive)
    (i : nat)
    (jobs : list (text * (string * list (R * string))))
    (w : world) (h : gmap positive image)
    : outcome (list video_clip) * world * gmap positive image :=
  match jobs with
  | [] => (Returns [], w, h)
  | (txt, (f, dialog_events)) :: rest =>
      match AudioFileClip f w with
      | Raises e => (Raises e, w, h)
      | Returns audio_clip_duration =>
          let duration := fl (audio_clip_duration + 0.5) in
          let speaking_char := if in_first_half i then 1 else 2 in
          let dialog :=
            DialogClip.init bg sprite1 sprite2 txt speaking_char
              duration dialog_events in
          let w1 := emit (LogInfo "DialogClip created" txt) w in
          match VideoClip dialog duration w1 h with
          | (Raises e, w2, h2) => (Raises e, w2, h2)
          | (Returns video_clip, w2, h2) =>
              let final_clip := set_audio video_clip f in
              match make_clips bg sprite1 sprite2 (S i) rest w2 h2 with
              | (Raises e, w3, h3) => (Raises e, w3, h3)
              | (Returns clips, w3, h3) =>
                  (Returns (final_clip :: clips), w3, h3)
              end
          end
      end
  end.

(** [create_conversation_video_oop] up to [final_video], with the
    background and the two scaled sprites already loaded. *)
Definition build_final_video (bg : positive)
    (sprite1 sprite2 : option positive)
    (texts : list text) (languages : list string)
    (w : world) (h : gmap positive image)
    : outcome timeline * world * gmap positive image :=
  let w0 := emit (LogInfo "Starting video creation process" []) w in
  let '(processed_texts, all_events, w1) := parse_texts texts w0 in
  let audio_files := map audio_file (seq 0 (length texts)) in
  match generate_all sprite1 sprite2 0
          (zip processed_texts (zip audio_files (zip languages all_events)))
          w1
  with
  | (Raises e, w2) => (Raises e, w2, h)
  | (Returns _, w2) =>
      match make_clips bg sprite1 sprite2 0
              (zip processed_texts (zip audio_files all_events)) w2 h
      with
      | (Raises e, w3, h3) => (Raises e, w3, h3)
      | (Returns clips, w3, h3) =>
          (Returns (concatenate_videoclips clips), w3, h3)
      end
  end.

(** The whole of [create_conversation_video_oop]: write the file, then
    remove the audio files. *)
Definition create_conversation_video_oop (bg : positive)
    (sprite1 sprite2 : option positive)
    (texts : list text) (languages : list string) (output_path : string)
    (w : world) (h : gmap positive image)
    : outcome unit * world * gmap positive image :=
  match build_final_video bg sprite1 sprite2 texts languages w h with
  | (Raises e, w1, h1) => (Raises e, w1, h1)
  | (Returns final_video, w1, h1) =>
      match write_videofile final_video output_path w1 with
      | (Some e, w2) => (Raises e, w2, h1)
      | (None, w2) =>
          let audio_files := map audio_file (seq 0 (length texts)) in
          let fs := foldl (fun m f => delete f m) (files w2) audio_files in
          (Returns (),
           emit (LogInfo "Video creation completed successfully" [])
                (World fs (log w2)),
           h1)
      end
  end.
End Pipeline.

End VideoCreator.

(** ** Vocabulary of the statements *)

(** [p] occurs in [s] as a contiguous piece. *)
Definition occurs (p s : text) : Prop := ∃ a b, s = a ++ p ++ b.

(** The bracketed token with the name [w] inside. *)
Definition bracketed (w : text) : text := 91%N :: w ++ [93%N].

(** No square bracket among the characters of [w]. *)
Definition bracket_free (w : text) : Prop :=
  Forall (fun c => c ≠ 91%N ∧ c ≠ 93%N) w.

(** No opening bracket between an opening bracket and the closing bracket
    that follows it; [inside] tells whether a bracket is already open. *)
Fixpoint unnested (inside : bool) (s : text) : bool :=
  match s with
  | [] => true
  | c :: s' =>
      if (c =? 91)%N then negb inside && unnested true s'
      else if (c =? 93)%N then unnested false s'
      else unnested inside s'
  end.

(** The text holds none of the six markers. *)
Definition marker_free (txt : text) : Prop :=
  Forall (fun ep : string * text => re_search ep.2 txt = false)
         EventParser.EVENT_PATTERNS.

(** [z] is an integer nearest to [x]: what rounding [x] gives, whichever
    way ties go. *)
Definition nearest (z : Z) (x : R) : Prop := (Rabs (IZR z - x) <= 1 / 2)%R.

(** [z] is [x] with its fractional part dropped. *)
Definition truncation (z : Z) (x : R) : Prop :=
  ((0 <= x -> IZR z <= x < IZR z + 1)
   ∧ (x <= 0 -> IZR z - 1 < x <= IZR z))%R.

(** The sum of a list of durations. *)
Definition Rsum (l : list R) : R := foldr Rplus 0%R l.

(** A monospaced face for the examples: every character is as wide as the
    font size, and the built-in font is 6 pixels a character. *)
Definition mono_bbox (f : font) (s : text) : Z * Z * Z * Z :=
  match f with
  | TrueType size => (0, 0, size * Z.of_nat (length s), size)
  | DefaultFont => (0, 0, 6 * Z.of_nat (length s), 11)
  end.

(** The patterns of a list are bracketed names without brackets inside. *)
Definition tag_patterns (pats : list (string * text)) : Prop :=
  Forall (fun ep : string * text => ∃ n, bracket_free n ∧ ep.2 = bracketed n)
         pats.

(** Appending text to a line never makes it narrower in the font [f]. *)
Definition grows (textbbox : font -> text -> Z * Z * Z * Z) (f : font) : Prop :=
  ∀ a b : text,
    SubtitleGenerator.line_width textbbox f a
      <= SubtitleGenerator.line_width textbbox f (a ++ py " " ++ b)
    ∧ SubtitleGenerator.line_width textbbox f b
      <= SubtitleGenerator.line_width textbbox f (a ++ py " " ++ b).

(** The lines [wrap_text] returns once its loop has left [st]. *)
Definition wrap_finish (st : list text * list text) : list text :=
  match st.2 with
  | [] => st.1
  | _ => st.1 ++ [join (py " ") st.2]
  end.

(** The references a clip captured point to images of the store; a sprite
    that is [None] points nowhere. *)
Definition live (self : DialogClip.clip) (s : DialogClip.store) : Prop :=
  is_Some (DialogClip.heap s !! DialogClip.background self)
  ∧ (∀ r, DialogClip.char1 self = Some r -> is_Some (DialogClip.heap s !! r))
  ∧ (∀ r, DialogClip.char2 self = Some r -> is_Some (DialogClip.heap s !! r)).

(** The frame after the two sprites are pasted on a copy of the
    background. *)
Definition pasted (fl np_sin : R -> R)
    (paste : image -> image -> Z * Z -> image)
    (self : DialogClip.clip) (t : R) (bg c1 c2 : image) : image :=
  let boxes :=
    DialogClip.placements self (img_width c2)
      (DialogClip.shake fl np_sin (DialogClip.events self) t).1 in
  paste (paste bg c1 boxes.1) c2 boxes.2.

(** Inputs of the examples: a decoder that reads the duration of a file
    off its one byte, a gTTS that always fails and leaves the files as they
    are, a Play.ht that writes its file, and a disk on which an audio file
    of an earlier run is still lying. *)
Definition example_duration (bytes : list N) : option R :=
  match bytes with
  | [30%N] => Some 3.0%R
  | [22%N] => Some 2.2%R
  | [90%N] => Some 9.0%R
  | _ => None
  end.

Definition failing_gtts (txt : text) (lang output_file : string)
    (fs : gmap string (list N)) : option exn * gmap string (list N) :=
  (Some (Exception "gTTSError"), fs).

Definition working_playht (txt : text) (voice_url output_file : string)
    (fs : gmap string (list N)) : option exn * gmap string (list N) :=
  (None, <[output_file := [30%N]]> fs).


(** The empty line [wrap_text] starts with when the first word of [words]
    does not fit the budget on its own. *)
Definition leading_blank (textbbox : font -> text -> Z * Z * Z * Z)
    (f : font) (max_width : Z) (words : list text) : list text :=
  match words with
  | w :: _ =>
      if SubtitleGenerator.line_width textbbox f w <=? max_width
      then [] else [[]]
  | [] => []
  end.

(** A group of words that makes a proper line: one word alone, or several
    that fit the budget together. *)
Definition line_group (textbbox : font -> text -> Z * Z * Z * Z)
    (f : font) (max_width : Z) (g : list text) : Prop :=
  length g = 1%nat
  ∨ (g ≠ []
     ∧ SubtitleGenerator.line_width textbbox f (join (py " ") g) <= max_width).

(** The records one frame at [t] sends to the log: one per active event. *)
Definition event_records (fl : R -> R) (evs : list (R * string)) (t : R)
    : list log_record :=
  (fun ev : R * string => LogEvent ev.2 t)
    <$> filter (fun ev : R * string => DialogClip.active fl t ev.1 = true) evs.

(** A provider that touches no file but the one it is asked to write. *)
Definition own_file_only
    (provider : text -> string -> string -> gmap string (list N)
                -> option exn * gmap string (list N)) : Prop :=
  ∀ txt arg output_file fs f,
    output_file ≠ f -> (provider txt arg output_file fs).2 !! f = fs !! f.

(** What the bounds on the shake need of the arithmetic, all of it true
    of float64 and of numpy's sine: rounding keeps the order of the
    numbers, it leaves the integers up to 30, the largest shake amount, as
    they are, and a sine lies between -1 and 1. *)
Definition amplitude_safe (fl np_sin : R -> R) : Prop :=
  (∀ x y : R, x <= y -> fl x <= fl y)%R
  ∧ (∀ n : Z, Z.abs n <= 30 -> fl (IZR n) = IZR n)
  ∧ (∀ x : R, -1 <= np_sin x <= 1)%R.

(** Zero is a float, and its sine is zero. *)
Definition zero_exact (fl np_sin : R -> R) : Prop :=
  fl 0%R = 0%R ∧ np_sin 0%R = 0%R.

(** An arithmetic that is right to one part in a hundred for the numbers
    between 1 and 10, and a sine that is right to a hundredth between 1
    and 2: far less than float64 and numpy give. *)
Definition accurate (fl np_sin : R -> R) : Prop :=
  (∀ x : R, 1 <= x <= 10 -> Rabs (fl x - x) <= x / 100)%R
  ∧ (∀ x : R, 1 <= x <= 2 -> Rabs (np_sin x - sin x) <= 1 / 100)%R.

(** The exact arithmetic, for the examples: nothing is rounded. *)
Definition unrounded (x : R) : R := x.

(** Two images of the same mode and size. *)
Definition same_canvas (a b : image) : Prop :=
  img_mode a = img_mode b
  ∧ img_width a = img_width b
  ∧ img_height a = img_height b.

(** Pasting and drawing text change the pixels of the image they work
    on, not its mode or its size. *)
Definition paste_keeps_canvas (paste : image -> image -> Z * Z -> image)
    : Prop :=
  ∀ d s box, same_canvas (paste d s box) d.

Definition text_keeps_canvas
    (multiline_text : image -> Z * Z -> text -> font -> pixel -> image)
    : Prop :=
  ∀ m xy s f fill, same_canvas (multiline_text m xy s f fill) m.

(** The images a run works with: the background is a picture of three
    channels, 1920 by 1080 as [resize((1920, 1080))] leaves it, and both
    sprites are loaded and have the alpha channel that pasting them with
    themselves as the mask needs. *)
Definition staged (bg : positive) (sprite1 sprite2 : option positive)
    (h : gmap positive image) : Prop :=
  (∃ b, h !! bg = Some b ∧ three_band (img_mode b) = true
        ∧ img_width b = 1920 ∧ img_height b = 1080)
  ∧ (∃ r1 c1, sprite1 = Some r1 ∧ h !! r1 = Some c1
               ∧ img_mode c1 = "RGBA"%string)
  ∧ (∃ r2 c2, sprite2 = Some r2 ∧ h !! r2 = Some c2
               ∧ img_mode c2 = "RGBA"%string).

(** The files and the log when the clip loop starts: the texts are
    parsed and the audio of the turns that have a language is generated. *)
Definition after_generation
    (gtts_save playht_stream :
       text -> string -> string -> gmap string (list N)
       -> option exn * gmap string (list N))
    (sprite1 sprite2 : option positive)
    (texts : list text) (languages : list string)
    (w : AudioGenerator.world) : AudioGenerator.world :=
  let w0 :=
    AudioGenerator.emit (LogInfo "Starting video creation process" []) w in
  let '(processed_texts, all_events, w1) :=
    VideoCreator.parse_texts texts w0 in
  let audio_files :=
    map VideoCreator.audio_file (seq 0 (length texts)) in
  (VideoCreator.generate_all gtts_save playht_stream sprite1 sprite2 0
     (zip processed_texts (zip audio_files (zip languages all_events)))
     w1).2.

(** A paste and a text drawing for the examples: they colour the one
    pixel at the corner they are given, when it lies in the image. *)
Definition corner_mark (m : image) (xy : Z * Z) (p : pixel) : image :=
  if bool_decide (0 <= xy.1 < img_width m ∧ 0 <= xy.2 < img_height m)
  then Image (img_mode m) (img_width m) (img_height m)
         (<[Z.to_nat (xy.2 * img_width m + xy.1) := p]> (img_pixels m))
  else m.

Definition corner_paste (d s : image) (box : Z * Z) : image :=
  match img_pixels s with
  | p :: _ => corner_mark d box p
  | [] => d
  end.

Definition corner_text (m : image) (xy : Z * Z) (s : text) (f : font)
    (fill : pixel) : image :=
  match s with
  | _ :: _ => corner_mark m xy fill
  | [] => m
  end.

(** The images of the examples: a grey background of 1920 by 1080 and a
    sprite of 300 by 600, under the references 1, 2 and 3. *)
Definition example_background : image :=
  Image "RGB" 1920 1080 (replicate (Z.to_nat (1920 * 1080)) (40, 40, 40, 255)%N).

Definition example_sprite : image :=
  Image "RGBA" 300 600 (replicate (Z.to_nat (300 * 600)) (200, 150, 100, 255)%N).

Definition example_images : gmap positive image :=
  list_to_map [(1%positive, example_background);
               (2%positive, example_sprite); (3%positive, example_sprite)].

(** * Properties *)

(** ** EventParser *)

Lemma startswith_prefix (p s : text) :
  startswith p s = true <-> p `prefix_of` s.
Proof.
  revert s. induction p as [|a p IH]; intros [|b s]; simpl.
  - split; [intros _; apply prefix_nil | done].
  - split; [intros _; apply prefix_nil | done].
  - split; [done | intros H; by apply prefix_nil_not in H].
  - rewrite andb_true_iff, N.eqb_eq, IH. split.
    + intros [-> H]. by apply prefix_cons.
    + intros H. split; [by eapply prefix_cons_inv_1 | by eapply prefix_cons_inv_2].
Qed.

Lemma re_search_occurs (p s : text) :
  re_search p s = true <-> occurs p s.
Proof.
  induction s as [|c s IH].
  - simpl. rewrite orb_false_r, startswith_prefix. split.
    + intros [k ->]. by exists [], k.
    + intros (a & b & H). destruct a as [|x a]; [|done].
      simpl in H. by exists b.
  - cbn [re_search]. rewrite orb_true_iff, startswith_prefix, IH. split.
    + intros [[k ->]|(a & b & ->)].
      * by exists [], k.
      * by exists (c :: a), b.
    + intros (a & b & H). destruct a as [|x a].
      * left. by exists b.
      * right. injection H as -> ->. by exists a, b.
Qed.

Lemma parse_step_absent (txt : text) (evs : list (R * string))
    (ep : string * text) :
  re_search ep.2 txt = false -> EventParser.parse_step (txt, evs) ep = (txt, evs).
Proof. destruct ep as [ty pat]. simpl. by intros ->. Qed.

Lemma parse_fold_absent (pats : list (string * text)) (txt : text)
    (evs : list (R * string)) :
  Forall (fun ep : string * text => re_search ep.2 txt = false) pats ->
  foldl EventParser.parse_step (txt, evs) pats = (txt, evs).
Proof.
  induction 1 as [|ep pats Hep _ IH]; [done|].
  cbn [foldl]. by rewrite parse_step_absent.
Qed.

(** C2, as the claim states it, fails: on ["Hi [laugh] there [laugh]!"] the
    parser does not return the clean text ["Hi there !"] with a single
    space between the words. *)
Lemma parse_hi_laugh_not_collapsed :
  EventParser.parse_events (py "Hi [laugh] there [laugh]!")
  ≠ (py "Hi there !", [(0.5%R, "laugh"%string)]).
Proof.
  intros H. apply (f_equal fst) in H. vm_compute in H. discriminate H.
Qed.

(** C2, amended: on ["Hi [laugh] there [laugh]!"] the parser returns the
    clean text ["Hi  there !"], where the two spaces that surrounded the
    first marker both stay, and the event list [[(0.5, "laugh")]]. *)
Theorem parse_hi_laugh :
  EventParser.parse_events (py "Hi [laugh] there [laugh]!")
  = (py "Hi  there !", [(0.5%R, "laugh"%string)]).
Proof. vm_compute. reflexivity. Qed.

(** C8, as the claim states it, fails: [" hi "] holds no marker, and the
    parser returns it with its surrounding blanks, not trimmed. *)
Lemma parse_untrimmed :
  marker_free (py " hi ")
  ∧ EventParser.parse_events (py " hi ") ≠ (strip (py " hi "), []).
Proof.
  split.
  - unfold marker_free. repeat constructor.
  - intros H. apply (f_equal fst) in H. vm_compute in H. discriminate H.
Qed.

(** C8, amended: for every text that holds none of the six markers the
    parser returns an empty event list together with the text unchanged
    (white space is trimmed only after a marker has been removed). *)
Theorem parse_without_markers (txt : text) :
  marker_free txt -> EventParser.parse_events txt = (txt, []).
Proof. apply parse_fold_absent. Qed.

Lemma parse_without_markers_witness :
  marker_free (py " hi ")
  ∧ EventParser.parse_events (py " hi ") = (py " hi ", []).
Proof.
  assert (H : marker_free (py " hi ")) by (unfold marker_free; repeat constructor).
  split; [exact H | exact (parse_without_markers (py " hi ") H)].
Defined.

Lemma re_sub_nil (p : text) : re_sub p [] = [].
Proof. by simp re_sub. Qed.

Lemma re_sub_match (p : text) (c : N) (s : text) :
  startswith p (c :: s) = true ->
  re_sub p (c :: s) = re_sub p (drop (Nat.pred (length p)) s).
Proof. intros H. simp re_sub. rewrite H. reflexivity. Qed.

Lemma re_sub_skip (p : text) (c : N) (s : text) :
  startswith p (c :: s) = false ->
  re_sub p (c :: s) = c :: re_sub p s.
Proof. intros H. simp re_sub. rewrite H. reflexivity. Qed.

Lemma startswith_bracketed_head (n : text) (c : N) (s : text) :
  startswith (bracketed n) (c :: s) = true -> c = 91%N.
Proof.
  unfold bracketed. cbn [startswith]. rewrite andb_true_iff, N.eqb_eq.
  by intros [<- _].
Qed.

(** Two bracket-free names that are both closed at the same place are the same name. *)
Lemma bracket_free_closed_inj (n w x y : text) :
  bracket_free n -> bracket_free w ->
  n ++ 93%N :: x = w ++ 93%N :: y -> n = w ∧ x = y.
Proof.
  intros Hn. revert w. induction Hn as [|c n [_ Hc] _ IH]; intros w Hw H.
  - destruct Hw as [|d w [_ Hd] _]; simpl in H.
    + by injection H.
    + injection H as <- _. done.
  - destruct Hw as [|d w [_ Hd] Hw]; simpl in H.
    + injection H as -> _. done.
    + injection H as -> H. destruct (IH w Hw H) as [-> ->]. done.
Qed.

Lemma re_sub_bracket_free (p w s : text) (n : text) :
  p = bracketed n -> bracket_free w ->
  re_sub p (w ++ s) = w ++ re_sub p s.
Proof.
  intros -> Hw. induction Hw as [|c w [Hc _] _ IH]; [done|].
  simpl. rewrite re_sub_skip.
  - by rewrite IH.
  - destruct (startswith (bracketed n) (c :: w ++ s)) eqn:E; [|done].
    by apply startswith_bracketed_head in E.
Qed.

Lemma re_sub_token_head (n w b : text) :
  bracket_free n -> bracket_free w -> w ≠ n ->
  re_sub (bracketed n) (bracketed w ++ b)
  = bracketed w ++ re_sub (bracketed n) b.
Proof.
  intros Hn Hw Hne. unfold bracketed at 2 3. simpl.
  rewrite re_sub_skip.
  - rewrite <- app_assoc. rewrite (re_sub_bracket_free _ w _ n eq_refl Hw).
    simpl. rewrite re_sub_skip; [by rewrite <- app_assoc|].
    destruct (startswith _ _) eqn:E; [|done].
    by apply startswith_bracketed_head in E.
  - destruct (startswith _ _) eqn:E; [|done].
    apply startswith_prefix in E as [k E]. unfold bracketed in E.
    simpl in E. injection E as E. rewrite <- !app_assoc in E. simpl in E.
    apply bracket_free_closed_inj in E as [E _]; done.
Qed.

Lemma closing_after_opening (n a y k : text) :
  bracket_free n -> a ++ 91%N :: y = n ++ 93%N :: k ->
  (length n < length a)%nat.
Proof.
  intros Hn. revert a. induction Hn as [|e n [He _] _ IH]; intros a H.
  - destruct a as [|d a]; simpl in *; [done | lia].
  - destruct a as [|d a]; simpl in *.
    + injection H as <- _. done.
    + injection H as _ H. apply IH in H. lia.
Qed.

Lemma re_sub_keeps_token (n w a b : text) :
  bracket_free n -> bracket_free w -> w ≠ n ->
  ∃ a', re_sub (bracketed n) (a ++ bracketed w ++ b)
        = a' ++ bracketed w ++ re_sub (bracketed n) b.
Proof.
  intros Hn Hw Hne. remember (length a) as k eqn:Hk. revert a Hk.
  induction k as [k IH] using lt_wf_ind. intros a ->.
  destruct a as [|c a].
  - exists []. by apply re_sub_token_head.
  - rewrite <- app_comm_cons.
    destruct (startswith (bracketed n) (c :: a ++ bracketed w ++ b)) eqn:E.
    + rewrite (re_sub_match _ _ _ E).
      apply startswith_prefix in E as [r E]. unfold bracketed in E.
      simpl in E. injection E as -> E. rewrite <- (app_assoc n) in E.
      simpl in E. apply closing_after_opening in E as Hlen; [|done].
      assert (Hp : Nat.pred (length (bracketed n)) = S (length n)).
      { unfold bracketed. simpl. rewrite length_app. simpl. lia. }
      rewrite Hp, drop_app_le by lia.
      apply (IH (length (drop (S (length n)) a))); [|done].
      rewrite length_drop. simpl. lia.
    + rewrite (re_sub_skip _ _ _ E).
      destruct (IH (length a) ltac:(simpl; lia) a eq_refl) as [a' ->].
      by exists (c :: a').
Qed.

Lemma occurs_re_sub (n w s : text) :
  bracket_free n -> bracket_free w -> w ≠ n ->
  occurs (bracketed w) s -> occurs (bracketed w) (re_sub (bracketed n) s).
Proof.
  intros Hn Hw Hne (a & b & ->).
  destruct (re_sub_keeps_token n w a b Hn Hw Hne) as [a' ->].
  by exists a', (re_sub (bracketed n) b).
Qed.

Lemma occurs_lstrip (x : N) (p s : text) :
  isspace x = false -> occurs (x :: p) s -> occurs (x :: p) (lstrip s).
Proof.
  intros Hx (a & b & ->). induction a as [|c a IH]; simpl.
  - rewrite Hx. by exists [], b.
  - destruct (isspace c); [done|]. by exists (c :: a), b.
Qed.

Lemma occurs_reverse (p s : text) :
  occurs p s -> occurs (reverse p) (reverse s).
Proof.
  intros (a & b & ->). exists (reverse b), (reverse a).
  by rewrite !reverse_app, <- app_assoc.
Qed.

Lemma occurs_strip_bracketed (w s : text) :
  occurs (bracketed w) s -> occurs (bracketed w) (strip s).
Proof.
  intros H. unfold strip, rstrip.
  apply (occurs_lstrip 91%N) in H; [|done].
  apply occurs_reverse in H. unfold bracketed in H.
  rewrite reverse_cons, reverse_app, reverse_singleton in H.
  rewrite <- app_assoc in H. cbn [app] in H.
  apply (occurs_lstrip 93%N) in H; [|done].
  apply occurs_reverse in H.
  rewrite reverse_cons, reverse_app, !reverse_involutive in H.
  rewrite reverse_singleton in H. exact H.
Qed.

Lemma unnested_bracket_free (o : bool) (w x : text) :
  bracket_free w -> unnested o (w ++ x) = unnested o x.
Proof.
  induction 1 as [|c w [H1 H2] _ IH]; [done|].
  simpl. apply N.eqb_neq in H1, H2. by rewrite H1, H2.
Qed.

Lemma unnested_inside_no_match (n : text) (s : text) :
  unnested true s = true -> startswith (bracketed n) s = false.
Proof.
  destruct s as [|d s]; [done|]. intros H.
  destruct (startswith _ _) eqn:E; [|done].
  apply startswith_bracketed_head in E as ->. done.
Qed.

Lemma closing_prefix_re_sub (n m s : text) :
  bracket_free m -> unnested true s = true ->
  (m ++ [93%N]) `prefix_of` re_sub (bracketed n) s ->
  (m ++ [93%N]) `prefix_of` s.
Proof.
  intros Hm. revert s. induction Hm as [|e m [He1 He2] _ IH]; intros s Hs Hp.
  - destruct s as [|d s].
    + rewrite re_sub_nil in Hp. by apply prefix_nil_not in Hp.
    + rewrite re_sub_skip in Hp by by apply unnested_inside_no_match.
      simpl in *. apply prefix_cons_inv_1 in Hp as ->.
      apply prefix_cons, prefix_nil.
  - destruct s as [|d s].
    + rewrite re_sub_nil in Hp. by apply prefix_nil_not in Hp.
    + rewrite re_sub_skip in Hp by by apply unnested_inside_no_match.
      simpl in Hp. pose proof (prefix_cons_inv_1 _ _ _ _ Hp) as ->.
      apply prefix_cons_inv_2 in Hp. simpl. apply prefix_cons, IH; [|done].
      simpl in Hs. apply N.eqb_neq in He1, He2. by rewrite He1, He2 in Hs.
Qed.

Lemma re_sub_unnested (n : text) (s : text) (o : bool) :
  bracket_free n -> unnested o s = true ->
  unnested o (re_sub (bracketed n) s) = true
  ∧ ∀ m, bracket_free m -> occurs (bracketed m) (re_sub (bracketed n) s) ->
         occurs (bracketed m) s ∧ m ≠ n.
Proof.
  intros Hn. remember (length s) as k eqn:Hk. revert s o Hk.
  induction k as [k IH] using lt_wf_ind. intros s o -> Hs.
  destruct s as [|c s].
  - rewrite re_sub_nil. split; [done|]. intros m _ (a & b & H).
    by destruct a.
  - destruct (startswith (bracketed n) (c :: s)) eqn:E.
    + rewrite (re_sub_match _ _ _ E).
      apply startswith_prefix in E as [r E]. unfold bracketed in E.
      simpl in E. injection E as -> ->.
      assert (Hp : Nat.pred (length (bracketed n)) = length (n ++ [93%N])).
      { unfold bracketed. done. }
      rewrite Hp, drop_app_length.
      simpl in Hs. apply andb_true_iff in Hs as [Ho Hs].
      destruct o; [done|].
      rewrite <- app_assoc, unnested_bracket_free in Hs by done. simpl in Hs.
      destruct (IH (length r)) with (s := r) (o := false) as [H1 H2]; [|done|done|].
      { simpl. rewrite !length_app. simpl. lia. }
      split; [done|]. intros m Hm Ho'. destruct (H2 m Hm Ho') as [(a & b & ->) Hne].
      split; [|done]. exists (91%N :: (n ++ [93%N]) ++ a), b.
      simpl. f_equal. by rewrite <- !app_assoc.
    + rewrite (re_sub_skip _ _ _ E).
      assert (Hs' : ∃ o', unnested o' s = true
                ∧ (c = 91%N -> o' = true)
                ∧ ∀ y, unnested o' y = true -> unnested o (c :: y) = true).
      { simpl in Hs |- *. destruct (c =? 91)%N eqn:E1.
        - apply andb_true_iff in Hs as [Ho Hs]. exists true.
          rewrite Ho. done.
        - destruct (c =? 93)%N eqn:E2.
          + exists false. split; [done|]. split; [|done].
            intros ->. done.
          + exists o. split; [done|]. split; [|done].
            intros ->. done. }
      destruct Hs' as (o' & Hs' & Hopen & Hback).
      destruct (IH (length s)) with (s := s) (o := o') as [H1 H2]; [simpl; lia|done|done|].
      split; [by apply Hback|].
      intros m Hm (a & b & H). destruct a as [|x a].
      * unfold bracketed in H. simpl in H. injection H as -> H.
        assert (Hp : (m ++ [93%N]) `prefix_of` s).
        { apply (closing_prefix_re_sub n); [done| |by exists b].
          by rewrite (Hopen eq_refl) in Hs'. }
        destruct Hp as [r ->]. split.
        -- by exists [], r.
        -- intros ->. unfold bracketed in E. simpl in E.
           assert (startswith (n ++ [93%N]) ((n ++ [93%N]) ++ r) = true) as Hst.
           { apply startswith_prefix. by exists r. }
           by rewrite Hst in E.
      * simpl in H. injection H as -> H.
        destruct (H2 m Hm) as [(a' & b' & ->) Hne]; [by exists a, b|].
        split; [|done]. by exists (x :: a'), b'.
Qed.

Lemma isspace_not_bracket (c : N) : isspace c = true -> c ≠ 91%N ∧ c ≠ 93%N.
Proof. intros H. split; intros ->; discriminate H. Qed.

Lemma lstrip_split (s : text) :
  ∃ a, s = a ++ lstrip s ∧ Forall (fun c => isspace c = true) a.
Proof.
  induction s as [|c s (a & IH & Ha)]; [by exists []|].
  simpl. destruct (isspace c) eqn:E.
  - exists (c :: a). split; [by rewrite IH at 1 | by constructor].
  - by exists [].
Qed.

Lemma rstrip_split (s : text) :
  ∃ b, s = rstrip s ++ b ∧ Forall (fun c => isspace c = true) b.
Proof.
  unfold rstrip. destruct (lstrip_split (reverse s)) as (a & H & Ha).
  exists (reverse a). split.
  - rewrite <- reverse_app, <- H. by rewrite reverse_involutive.
  - by apply Forall_reverse.
Qed.

Lemma occurs_strip_inv (p s : text) : occurs p (strip s) -> occurs p s.
Proof.
  intros (a & b & H). unfold strip in H.
  destruct (lstrip_split s) as (x & Hs & _).
  destruct (rstrip_split (lstrip s)) as (y & Hl & _).
  exists (x ++ a), (b ++ y). rewrite Hs, Hl, H. by rewrite <- !app_assoc.
Qed.

Lemma unnested_spaces (o : bool) (a x : text) :
  Forall (fun c => isspace c = true) a -> unnested o (a ++ x) = unnested o x.
Proof.
  intros H. apply unnested_bracket_free.
  eapply Forall_impl; [exact H|]. intros c Hc. by apply isspace_not_bracket.
Qed.

Lemma unnested_prefix (o : bool) (x y : text) :
  unnested o (x ++ y) = true -> unnested o x = true.
Proof.
  revert o. induction x as [|c x IH]; intros o; [done|].
  simpl. destruct (c =? 91)%N.
  - rewrite !andb_true_iff. intros [? ?]. eauto.
  - destruct (c =? 93)%N; eauto.
Qed.

Lemma unnested_strip (o : bool) (s : text) :
  unnested o s = true -> unnested o (strip s) = true.
Proof.
  intros H. unfold strip.
  destruct (lstrip_split s) as (x & Hs & Hx).
  destruct (rstrip_split (lstrip s)) as (y & Hl & _).
  rewrite Hs, unnested_spaces in H by done.
  rewrite Hl in H. by apply unnested_prefix in H.
Qed.

Lemma parse_fold_events (pats : list (string * text)) (txt : text)
    (evs : list (R * string)) :
  ∃ picked, picked `sublist_of` pats.*1
    ∧ (foldl EventParser.parse_step (txt, evs) pats).2
      = evs ++ ((fun ty => (0.5%R, ty)) <$> picked).
Proof.
  revert txt evs. induction pats as [|[ty pat] pats IH]; intros txt evs.
  - exists []. split; [done|]. simpl. by rewrite app_nil_r.
  - cbn [foldl EventParser.parse_step]. destruct (re_search pat txt).
    + destruct (IH (strip (re_sub pat txt)) (evs ++ [(0.5%R, ty)]))
        as (picked & Hsub & ->).
      exists (ty :: picked). split; [by apply sublist_skip|].
      by rewrite <- app_assoc.
    + destruct (IH txt evs) as (picked & Hsub & ->).
      exists picked. split; [by apply sublist_cons|done].
Qed.

Lemma parse_step_keeps_token (ep : string * text) (txt : text)
    (evs : list (R * string)) (w : text) :
  (∃ n, bracket_free n ∧ ep.2 = bracketed n) ->
  bracket_free w -> bracketed w ≠ ep.2 ->
  occurs (bracketed w) txt ->
  occurs (bracketed w) (EventParser.parse_step (txt, evs) ep).1.
Proof.
  destruct ep as [ty pat]. intros (n & Hn & Hp) Hw Hne Ho. simpl in *. subst pat.
  destruct (re_search _ _); [|done]. simpl.
  apply occurs_strip_bracketed, occurs_re_sub; try done.
  by intros ->.
Qed.

Lemma parse_fold_keeps_token (pats : list (string * text)) (txt : text)
    (evs : list (R * string)) (w : text) :
  tag_patterns pats -> bracket_free w -> bracketed w ∉ pats.*2 ->
  occurs (bracketed w) txt ->
  occurs (bracketed w) (foldl EventParser.parse_step (txt, evs) pats).1.
Proof.
  intros Hp Hw. revert txt evs.
  induction Hp as [|ep pats Hep _ IH]; intros txt evs Hni Ho; [done|].
  cbn [foldl]. rewrite fmap_cons, not_elem_of_cons in Hni. destruct Hni as [Hne Hni].
  pose proof (parse_step_keeps_token ep txt evs w Hep Hw Hne Ho) as H.
  destruct (EventParser.parse_step (txt, evs) ep) as [txt1 evs1].
  by apply IH.
Qed.

Lemma parse_fold_present (pats : list (string * text)) (txt : text)
    (evs : list (R * string)) (ty : string) (pat : text) :
  tag_patterns pats -> NoDup pats.*2 -> (ty, pat) ∈ pats -> occurs pat txt ->
  (0.5%R, ty) ∈ (foldl EventParser.parse_step (txt, evs) pats).2.
Proof.
  intros Hp. revert txt evs.
  induction Hp as [|ep pats Hep Hp IH]; intros txt evs Hnd Hin Ho.
  - by apply elem_of_nil in Hin.
  - rewrite fmap_cons in Hnd. apply NoDup_cons in Hnd as [Hni Hnd].
    cbn [foldl]. apply elem_of_cons in Hin as [<-|Hin].
    + cbn [EventParser.parse_step]. apply re_search_occurs in Ho. rewrite Ho.
      destruct (parse_fold_events pats (strip (re_sub pat txt))
                  (evs ++ [(0.5%R, ty)])) as (picked & _ & ->).
      apply elem_of_app. left. apply elem_of_app. right. by apply list_elem_of_singleton.
    + assert (Hpat : ∃ w, bracket_free w ∧ pat = bracketed w).
      { rewrite Forall_forall in Hp. apply (Hp _ Hin). }
      destruct Hpat as (w & Hw & ->).
      assert (Hne : bracketed w ≠ ep.2).
      { intros Heq. apply Hni. rewrite <- Heq.
        apply list_elem_of_fmap. by exists (ty, bracketed w). }
      pose proof (parse_step_keeps_token ep txt evs w Hep Hw Hne Ho) as H.
      destruct (EventParser.parse_step (txt, evs) ep) as [txt1 evs1].
      by apply IH.
Qed.

Lemma parse_step_unnested (ep : string * text) (txt : text)
    (evs : list (R * string)) :
  (∃ n, bracket_free n ∧ ep.2 = bracketed n) ->
  unnested false txt = true ->
  unnested false (EventParser.parse_step (txt, evs) ep).1 = true
  ∧ ∀ m, bracket_free m ->
         occurs (bracketed m) (EventParser.parse_step (txt, evs) ep).1 ->
         occurs (bracketed m) txt ∧ bracketed m ≠ ep.2.
Proof.
  destruct ep as [ty pat]. intros (n & Hn & Hp) Hu. simpl in *. subst pat.
  destruct (re_search _ _) eqn:E; simpl.
  - destruct (re_sub_unnested n txt false Hn Hu) as [H1 H2]. split.
    + by apply unnested_strip.
    + intros m Hm Ho. apply occurs_strip_inv in Ho.
      destruct (H2 m Hm Ho) as [? Hne]. split; [done|].
      intros Heq. apply Hne. unfold bracketed in Heq.
      injection Heq as Heq. by apply app_inv_tail in Heq.
  - split; [done|]. intros m Hm Ho. split; [done|].
    intros Heq. rewrite <- Heq in E. apply re_search_occurs in Ho. congruence.
Qed.

Lemma parse_fold_unnested (pats : list (string * text)) (txt : text)
    (evs : list (R * string)) :
  tag_patterns pats -> unnested false txt = true ->
  ∀ m, bracket_free m ->
       occurs (bracketed m) (foldl EventParser.parse_step (txt, evs) pats).1 ->
       occurs (bracketed m) txt ∧ bracketed m ∉ pats.*2.
Proof.
  intros Hp. revert txt evs.
  induction Hp as [|ep pats Hep _ IH]; intros txt evs Hu m Hm Ho.
  - split; [done|]. apply not_elem_of_nil.
  - cbn [foldl] in Ho.
    destruct (parse_step_unnested ep txt evs Hep Hu) as [Hu1 Hback].
    destruct (EventParser.parse_step (txt, evs) ep) as [txt1 evs1].
    simpl in Hu1, Hback.
    destruct (IH txt1 evs1 Hu1 m Hm Ho) as [Ho1 Hni].
    destruct (Hback m Hm Ho1) as [Ho0 Hne].
    split; [done|]. rewrite fmap_cons. by apply not_elem_of_cons.
Qed.

Lemma event_patterns_tags : tag_patterns EventParser.EVENT_PATTERNS.
Proof.
  unfold tag_patterns, EventParser.EVENT_PATTERNS.
  repeat apply Forall_cons_2; try apply Forall_nil_2; simpl.
  - exists (py "laugh"). split; [|done]. repeat constructor; done.
  - exists (py "surprise"). split; [|done]. repeat constructor; done.
  - exists (py "sad"). split; [|done]. repeat constructor; done.
  - exists (py "excited"). split; [|done]. repeat constructor; done.
  - exists (py "angry"). split; [|done]. repeat constructor; done.
  - exists (py "confused"). split; [|done]. repeat constructor; done.
Qed.

Lemma event_patterns_distinct : NoDup EventParser.EVENT_PATTERNS.*2.
Proof. apply (bool_decide_unpack _). vm_compute. exact I. Qed.

(** C7, as the claim states it, fails: the parser does not remove every
    recognized marker from the text.  On ["[la[laugh]ugh]"] the one scan for
    [[laugh]] deletes the inner marker, and the pieces around it join into
    a [[laugh]] that stays in the clean text. *)
Lemma parse_leaves_joined_marker :
  (EventParser.parse_events (py "[la[laugh]ugh]")).1 = py "[laugh]"
  ∧ ("laugh"%string, py "[laugh]") ∈ EventParser.EVENT_PATTERNS
  ∧ occurs (py "[laugh]") (EventParser.parse_events (py "[la[laugh]ugh]")).1.
Proof.
  assert (H : (EventParser.parse_events (py "[la[laugh]ugh]")).1 = py "[laugh]")
    by (vm_compute; reflexivity).
  split; [exact H|]. split.
  - apply elem_of_cons. by left.
  - rewrite H. by exists [], [].
Qed.

(** C7, amended: for every text the parser emits at most one event per
    recognized marker type, each at 0.5 seconds, in the order of the fixed
    vocabulary (the events are a sublist of it); a marker type that occurs
    in the text gets its event; a bracketed token that is not a recognized
    marker stays in the clean text; and when no opening bracket stands
    between an opening bracket and the closing bracket after it, the clean
    text holds no recognized marker any more. *)
Theorem parse_events_markers (txt : text) :
  (∃ picked, picked `sublist_of` EventParser.EVENT_PATTERNS.*1
     ∧ (EventParser.parse_events txt).2 = (fun ty => (0.5%R, ty)) <$> picked)
  ∧ (∀ ty pat, (ty, pat) ∈ EventParser.EVENT_PATTERNS -> occurs pat txt ->
       (0.5%R, ty) ∈ (EventParser.parse_events txt).2)
  ∧ (∀ w, bracket_free w -> bracketed w ∉ EventParser.EVENT_PATTERNS.*2 ->
       occurs (bracketed w) txt ->
       occurs (bracketed w) (EventParser.parse_events txt).1)
  ∧ (unnested false txt = true ->
     ∀ ty pat, (ty, pat) ∈ EventParser.EVENT_PATTERNS ->
       ¬ occurs pat (EventParser.parse_events txt).1).
Proof.
  unfold EventParser.parse_events. repeat split.
  - apply (parse_fold_events EventParser.EVENT_PATTERNS txt []).
  - intros ty pat Hin Ho.
    apply (parse_fold_present _ txt [] ty pat);
      [apply event_patterns_tags | apply event_patterns_distinct | done | done].
  - intros w Hw Hni Ho.
    apply parse_fold_keeps_token; [apply event_patterns_tags | done | done | done].
  - intros Hu ty pat Hin Ho.
    pose proof event_patterns_tags as Ht.
    assert (Hpat : ∃ n, bracket_free n ∧ pat = bracketed n).
    { unfold tag_patterns in Ht. rewrite Forall_forall in Ht. apply (Ht _ Hin). }
    destruct Hpat as (n & Hn & ->).
    destruct (parse_fold_unnested _ txt [] Ht Hu n Hn Ho) as [_ Hni].
    apply Hni. apply list_elem_of_fmap. by exists (ty, bracketed n).
Qed.

Lemma parse_events_markers_witness :
  (0.5%R, "laugh"%string)
    ∈ (EventParser.parse_events (py "Hi [laugh] there [wink]")).2
  ∧ occurs (py "[wink]")
      (EventParser.parse_events (py "Hi [laugh] there [wink]")).1
  ∧ ¬ occurs (py "[laugh]")
      (EventParser.parse_events (py "Hi [laugh] there [wink]")).1.
Proof.
  destruct (parse_events_markers (py "Hi [laugh] there [wink]"))
    as (_ & Hpresent & Hkept & Hgone).
  split; [|split].
  - apply (Hpresent "laugh"%string (py "[laugh]")).
    + apply elem_of_cons. by left.
    + by exists (py "Hi "), (py " there [wink]").
  - apply (Hkept (py "wink")).
    + repeat constructor; done.
    + apply (bool_decide_unpack _). vm_compute. exact I.
    + by exists (py "Hi [laugh] there "), [].
  - apply (Hgone eq_refl "laugh"%string (py "[laugh]")).
    apply elem_of_cons. by left.
Defined.

(** ** SubtitleGenerator *)

Section Wrapping.
Import SubtitleGenerator.
Variable textbbox : font -> text -> Z * Z * Z * Z.
Variable f : font.
Variable max_width : Z.

Lemma wrap_text_finish (txt : text) :
  wrap_text textbbox txt f max_width
  = wrap_finish (wrap_words textbbox f max_width (split txt) [] []).
Proof.
  unfold wrap_text, wrap_finish.
  by destruct (wrap_words _ _ _ _ _ _) as [lines [|c cur]].
Qed.

Lemma wrap_words_lines (words lines cur : list text) :
  wrap_finish (wrap_words textbbox f max_width words lines cur)
  = lines ++ wrap_finish (wrap_words textbbox f max_width words [] cur).
Proof.
  revert lines cur. induction words as [|w words IH]; intros lines cur.
  - unfold wrap_finish. simpl. destruct cur; [by rewrite app_nil_r | done].
  - simpl. destruct (_ <=? _).
    + apply IH.
    + rewrite IH. rewrite (IH [_]). by rewrite <- app_assoc.
Qed.

Lemma join_snoc (cur : list text) (w : text) :
  cur ≠ [] ->
  join (py " ") (cur ++ [w]) = join (py " ") cur ++ py " " ++ w.
Proof.
  induction cur as [|c cur IH]; [done|]. intros _.
  destruct cur as [|d cur]; [done|].
  change (join (py " ") ((c :: d :: cur) ++ [w]))
    with (c ++ py " " ++ join (py " ") ((d :: cur) ++ [w])).
  rewrite IH by done.
  change (join (py " ") (c :: d :: cur))
    with (c ++ py " " ++ join (py " ") (d :: cur)).
  by rewrite <- !app_assoc.
Qed.

Lemma oversized_closes_line (w : text) (words cur : list text) :
  grows textbbox f -> max_width < line_width textbbox f w ->
  ∃ more,
    wrap_finish (wrap_words textbbox f max_width (w :: words) [] cur)
    = join (py " ") cur :: w :: more.
Proof.
  intros Hg Hw. cbn [wrap_words].
  assert (H1 : (line_width textbbox f (join (py " ") (cur ++ [w]))
                <=? max_width) = false).
  { apply Z.leb_gt. destruct cur as [|c cur]; [done|].
    rewrite join_snoc by done.
    destruct (Hg (join (py " ") (c :: cur)) w) as [_ H]. lia. }
  rewrite H1. rewrite wrap_words_lines. simpl.
  destruct words as [|v words].
  - by exists [].
  - cbn [wrap_words].
    assert (H2 : (line_width textbbox f (join (py " ") ([w] ++ [v]))
                  <=? max_width) = false).
    { apply Z.leb_gt. simpl. destruct (Hg w v) as [H _]. simpl in H. lia. }
    rewrite H2. rewrite wrap_words_lines. simpl. eauto.
Qed.

Lemma oversized_own_line (pre : list text) (w : text)
    (post cur : list text) :
  grows textbbox f -> max_width < line_width textbbox f w ->
  ∃ l1 l2,
    wrap_finish (wrap_words textbbox f max_width (pre ++ w :: post) [] cur)
    = l1 ++ w :: l2.
Proof.
  intros Hg Hw. revert cur. induction pre as [|p pre IH]; intros cur.
  - rewrite app_nil_l.
    destruct (oversized_closes_line w post cur Hg Hw) as [more ->].
    by exists [join (py " ") cur], more.
  - simpl. destruct (_ <=? _).
    + apply IH.
    + rewrite wrap_words_lines. destruct (IH [p]) as (l1 & l2 & ->).
      exists ([join (py " ") cur] ++ l1), l2. by rewrite <- app_assoc.
Qed.

Lemma oversized_first_word (w : text) (words : list text) :
  max_width < line_width textbbox f w ->
  ∃ more,
    wrap_finish (wrap_words textbbox f max_width (w :: words) [] [])
    = [] :: more.
Proof.
  intros Hw. cbn [wrap_words]. simpl.
  apply Z.leb_gt in Hw. rewrite Hw. rewrite wrap_words_lines. simpl. eauto.
Qed.

(** C10: when a word of the text measures wider than the budget, the
    wrapper never splits it: the word is a wrapped line on its own (wider
    than the budget), given that the font never measures a line narrower
    after more text is appended; and when that word is the first word of
    the text, the first wrapped line is the empty string, the still-empty
    current line closed before the word is placed. *)
Theorem wrap_oversized_word (txt : text) (pre : list text) (w : text)
    (post : list text) :
  split txt = pre ++ w :: post ->
  max_width < line_width textbbox f w ->
  (pre = [] -> ∃ more, wrap_text textbbox txt f max_width = [] :: more)
  ∧ (grows textbbox f ->
     ∃ l1 l2, wrap_text textbbox txt f max_width = l1 ++ w :: l2).
Proof.
  intros Hs Hw. rewrite wrap_text_finish, Hs. split.
  - intros ->. by apply oversized_first_word.
  - intros Hg. by apply oversized_own_line.
Qed.
End Wrapping.

Lemma mono_grows (size : Z) : 0 <= size -> grows mono_bbox (TrueType size).
Proof.
  intros Hs a b. unfold SubtitleGenerator.line_width, mono_bbox.
  rewrite !length_app. simpl. nia.
Qed.

Lemma wrap_oversized_word_witness :
  (∃ more, SubtitleGenerator.wrap_text mono_bbox (py "abcdefgh hi") (TrueType 30) 100
           = [] :: more)
  ∧ ∃ l1 l2, SubtitleGenerator.wrap_text mono_bbox (py "abcdefgh hi") (TrueType 30) 100
             = l1 ++ py "abcdefgh" :: l2.
Proof.
  destruct (wrap_oversized_word mono_bbox (TrueType 30) 100 (py "abcdefgh hi")
              [] (py "abcdefgh") [py "hi"]) as [H1 H2].
  - vm_compute. reflexivity.
  - vm_compute. reflexivity.
  - split; [by apply H1 | apply H2, mono_grows; lia].
Defined.

Section Fitting.
Import SubtitleGenerator.
Variable loadable : Z -> bool.
Variable textbbox : font -> text -> Z * Z * Z * Z.
Hypothesis font_present : ∀ size, loadable size = true.

Lemma fit_font_stop (txt : text) (mw size : Z) (f : font) (lines : list text) :
  size <= 20 ->
  fit_font loadable textbbox txt mw size f lines
  = Returns (Fitted size f lines).
Proof.
  intros H. simp fit_font.
  destruct (decide (size > 20)); [lia | by simp fit_font].
Qed.

Lemma fit_font_step (txt : text) (mw size : Z) (f : font) (lines : list text) :
  20 < size ->
  fit_font loadable textbbox txt mw size f lines
  = if decide (length (wrap_text textbbox txt (TrueType size) mw) <= 3)%nat
    then Returns (Fitted size (TrueType size)
                    (wrap_text textbbox txt (TrueType size) mw))
    else fit_font loadable textbbox txt mw (size - 2) (TrueType size)
           (wrap_text textbbox txt (TrueType size) mw).
Proof.
  intros H. simp fit_font. destruct (decide (size > 20)); [|lia].
  simp fit_font. unfold truetype. rewrite font_present. by simp fit_font.
Qed.

Lemma fit_font_result (txt : text) (mw size : Z) (f : font)
    (lines : list text) :
  20 < size ->
  ∃ s fit,
    fit_font loadable textbbox txt mw size f lines = Returns fit
    ∧ 20 < s <= size ∧ (size - s) `mod` 2 = 0
    ∧ used_font fit = TrueType s
    ∧ wrapped_lines fit = wrap_text textbbox txt (TrueType s) mw
    ∧ (∀ s', s < s' <= size -> (size - s') `mod` 2 = 0 ->
         (3 < length (wrap_text textbbox txt (TrueType s') mw))%nat)
    ∧ ((length (wrapped_lines fit) <= 3)%nat ∧ current_fontsize fit = s
       ∨ (3 < length (wrapped_lines fit))%nat ∧ s <= 22
         ∧ current_fontsize fit = s - 2).
Proof.
  remember (Z.to_nat (size - 20)) as k eqn:Hk. revert size f lines Hk.
  induction k as [k IH] using lt_wf_ind. intros size f lines -> Hsize.
  rewrite fit_font_step by done.
  destruct (decide (length _ <= 3)%nat) as [Hle|Hgt].
  - exists size, (Fitted size (TrueType size)
                    (wrap_text textbbox txt (TrueType size) mw)).
    simpl. rewrite Z.sub_diag. repeat split; try done; try lia.
  - destruct (decide (size - 2 <= 20)) as [Hlast|Hmore].
    + rewrite fit_font_stop by done.
      exists size, (Fitted (size - 2) (TrueType size)
                      (wrap_text textbbox txt (TrueType size) mw)).
      simpl. rewrite Z.sub_diag. repeat split; try done; try lia.
    + destruct (IH (Z.to_nat (size - 2 - 20)) ltac:(lia) (size - 2)
                  (TrueType size)
                  (wrap_text textbbox txt (TrueType size) mw)
                  eq_refl ltac:(lia))
        as (s & fit & -> & Hs & Hpar & Hf & Hl & Hbig & Hend).
      exists s, fit. repeat split; try done; try lia.
      * replace (size - s) with ((size - 2 - s) + 1 * 2) by lia.
        by rewrite Z.mod_add.
      * intros s' Hs' Hpar'. destruct (decide (s' = size)) as [->|Hne]; [lia|].
        apply Hbig.
        -- assert (s' ≠ size - 1); [|lia].
           intros ->. replace (size - (size - 1)) with 1 in Hpar' by lia. done.
        -- replace (size - s') with ((size - 2 - s') + 1 * 2) in Hpar' by lia.
           by rewrite Z.mod_add in Hpar'.
Qed.

(** C1, amended: with the font file loadable, the layout of
    [create_subtitle_mask] never raises, for every text and base font
    size.  It has at most 3 wrapped lines unless the size counter has come
    down to 20 or below.  The sizes tried are the base size and every
    second size below it that is still above 20, so 20 itself is never
    tried: the font and the lines used are those of the first tried size
    [s] that gives at most 3 lines, and when none does, those of the
    smallest tried size, which is 22 (21 for an odd base size), with the
    counter left at [s - 2].  A base size of 20 or less tries nothing and
    wraps no line. *)
Theorem layout_fits (w : Z) (txt : text) (fontsize : Z) :
  ∃ fit,
    layout loadable textbbox w txt fontsize = Returns fit
    ∧ ((length (wrapped_lines fit) <= 3)%nat ∨ current_fontsize fit <= 20)
    ∧ (fontsize <= 20 -> fit = Fitted fontsize (TrueType fontsize) [])
    ∧ (20 < fontsize ->
       ∃ s, 20 < s <= fontsize ∧ (fontsize - s) `mod` 2 = 0
         ∧ used_font fit = TrueType s
         ∧ wrapped_lines fit = wrap_text textbbox txt (TrueType s) (w - 100)
         ∧ (∀ s', s < s' <= fontsize -> (fontsize - s') `mod` 2 = 0 ->
              (3 < length (wrap_text textbbox txt (TrueType s') (w - 100)))%nat)
         ∧ ((3 < length (wrapped_lines fit))%nat ->
            s <= 22 ∧ current_fontsize fit = s - 2)).
Proof.
  unfold layout, truetype. rewrite font_present.
  destruct (decide (fontsize <= 20)) as [Hle|Hgt].
  - rewrite fit_font_stop by done.
    exists (Fitted fontsize (TrueType fontsize) []). split; [done|].
    simpl. split; [left; lia|]. split; [done|]. intros ?. lia.
  - destruct (fit_font_result txt (w - 100) fontsize (TrueType fontsize) []
                ltac:(lia))
      as (s & fit & -> & Hs & Hpar & Hf & Hl & Hbig & Hend).
    exists fit. split; [done|]. split; [|split].
    + destruct Hend as [[? ?]|(? & ? & ?)]; [by left | right; lia].
    + intros ?. lia.
    + intros _. exists s. repeat split; try done; try lia.
      all: intros H3; destruct Hend as [[? ?]|(? & ? & ?)]; lia.
Qed.
End Fitting.

(** C1, as the claim states it, fails: with a budget of 100 pixels and a
    monospaced face, ["aa bb cc dd ee ff"] wraps to more than 3 lines at
    every size from 48 down to 22, so no tried size gives 3 lines; the
    layout then uses the font and the 6 lines of size 22, not 20, although
    size 20 would have given exactly 3 lines. *)
Lemma layout_never_tries_20 :
  SubtitleGenerator.layout (fun _ => true) mono_bbox 200
    (py "aa bb cc dd ee ff") 48
  = Returns (SubtitleGenerator.Fitted 20 (TrueType 22)
               [py "aa"; py "bb"; py "cc"; py "dd"; py "ee"; py "ff"])
  ∧ SubtitleGenerator.wrap_text mono_bbox (py "aa bb cc dd ee ff")
      (TrueType 20) (200 - 100)
    = [py "aa bb"; py "cc dd"; py "ee ff"].
Proof. split; vm_compute; reflexivity. Qed.

Lemma layout_fits_witness :
  ∃ fit,
    SubtitleGenerator.layout (fun _ => true) mono_bbox 1920
      (py "Hello there") 48 = Returns fit
    ∧ ((length (SubtitleGenerator.wrapped_lines fit) <= 3)%nat
       ∨ SubtitleGenerator.current_fontsize fit <= 20).
Proof.
  destruct (layout_fits (fun _ => true) mono_bbox (fun _ => eq_refl)
              1920 (py "Hello there") 48) as (fit & H1 & H2 & _).
  by exists fit.
Defined.

(** ** DialogClip *)

Lemma py_int_truncation (x : R) : truncation (DialogClip.py_int x) x.
Proof.
  unfold truncation, DialogClip.py_int. destruct (Rle_dec 0 x) as [Hx|Hx].
  - destruct (base_Int_part x) as [H1 H2]. split; [intros _; lra|].
    intros Hx0. assert (x = 0%R) as -> by lra.
    assert (Int_part 0 = 0) as ->; [|simpl; lra].
    symmetry. apply Int_part_spec. simpl. lra.
  - destruct (base_Int_part (- x)) as [H1 H2]. rewrite opp_IZR.
    split; intros ?; lra.
Qed.

Lemma truncation_unique (z z' : Z) (x : R) :
  truncation z x -> truncation z' x -> z = z'.
Proof.
  intros [Hp Hn] [Hp' Hn']. destruct (Rle_dec 0 x) as [H0|H0].
  - destruct (Hp H0), (Hp' H0).
    assert (z < z' + 1) by (apply lt_IZR; rewrite plus_IZR; simpl; lra).
    assert (z' < z + 1) by (apply lt_IZR; rewrite plus_IZR; simpl; lra).
    lia.
  - destruct (Hn ltac:(lra)), (Hn' ltac:(lra)).
    assert (z - 1 < z') by (apply lt_IZR; rewrite minus_IZR; simpl; lra).
    assert (z' - 1 < z) by (apply lt_IZR; rewrite minus_IZR; simpl; lra).
    lia.
Qed.

Lemma Rabs_bounds (a b : R) : (Rabs a <= b -> - b <= a <= b)%R.
Proof. unfold Rabs. destruct (Rcase_abs a); lra. Qed.

Lemma sine_near_1_25 (a : R) :
  (1.2 <= a <= 1.3 -> 0.93 <= sin a <= 0.965)%R.
Proof.
  intros [Ha1 Ha2].
  assert (Hpi : (3 < PI)%R) by (pose proof PI2_3_2; lra).
  assert (Hlo : (0.93 <= sin 1.2)%R).
  { destruct (SIN 1.2 ltac:(lra) ltac:(lra)) as [Hlb _].
    eapply Rle_trans; [|exact Hlb].
    unfold sin_lb, sin_approx. cbn [sum_f_R0]. unfold sin_term.
    rewrite !INR_IZR_INZ.
    change (Z.of_nat (fact (2 * 0 + 1))) with 1.
    change (Z.of_nat (fact (2 * 1 + 1))) with 6.
    change (Z.of_nat (fact (2 * 2 + 1))) with 120.
    change (Z.of_nat (fact (2 * 3 + 1))) with 5040.
    cbn [pow Nat.mul Nat.add]. lra. }
  assert (Hhi : (sin 1.3 <= 0.965)%R).
  { destruct (SIN 1.3 ltac:(lra) ltac:(lra)) as [_ Hub].
    eapply Rle_trans; [exact Hub|].
    unfold sin_ub, sin_approx. cbn [sum_f_R0]. unfold sin_term.
    rewrite !INR_IZR_INZ.
    change (Z.of_nat (fact (2 * 0 + 1))) with 1.
    change (Z.of_nat (fact (2 * 1 + 1))) with 6.
    change (Z.of_nat (fact (2 * 2 + 1))) with 120.
    change (Z.of_nat (fact (2 * 3 + 1))) with 5040.
    change (Z.of_nat (fact (2 * 4 + 1))) with 362880.
    cbn [pow Nat.mul Nat.add]. lra. }
  split.
  - eapply Rle_trans; [exact Hlo|]. apply sin_incr_1; lra.
  - eapply Rle_trans; [|exact Hhi]. apply sin_incr_1; lra.
Qed.

(** At [t = 0.125] the idle product lies strictly between 4.5 and 5 in
    every arithmetic that is accurate to one percent. *)
Lemma idle_value_at_eighth (fl np_sin : R -> R) :
  accurate fl np_sin ->
  (4.5 < fl (IZR 5 * np_sin (fl (0.125 * 10))) < 5)%R.
Proof.
  intros [Hfl Hsin].
  replace (0.125 * 10)%R with 1.25%R by lra.
  pose proof (Hfl 1.25%R ltac:(lra)) as H1. apply Rabs_bounds in H1.
  set (a := fl 1.25%R) in *.
  pose proof (sine_near_1_25 a ltac:(lra)) as H2.
  pose proof (Hsin a ltac:(lra)) as H3. apply Rabs_bounds in H3.
  set (y := np_sin a) in *. simpl.
  pose proof (Hfl (5 * y)%R ltac:(lra)) as H4. apply Rabs_bounds in H4.
  clearbody a y. lra.
Qed.

Lemma idle_offset_at_eighth (fl np_sin : R -> R) :
  accurate fl np_sin -> DialogClip.idle_offset fl np_sin 0.125 = 4.
Proof.
  intros H. pose proof (idle_value_at_eighth fl np_sin H) as [H1 H2].
  apply (truncation_unique _ _ _ (py_int_truncation _)).
  split; intros ?; lra.
Qed.

Lemma unrounded_accurate : accurate unrounded sin.
Proof.
  split; intros x Hx; unfold unrounded;
    rewrite Rminus_diag, Rabs_R0; lra.
Qed.

(** C4, as the claim states it, fails: at [t = 0.125], in every
    arithmetic that is accurate to one percent, float64 with numpy's sine
    and the exact reals among them, the idle product [5 * sin (t * 10)] is
    about 4.74, so rounding gives 5, and the rendering computes 4. *)
Lemma idle_offset_not_rounded :
  accurate unrounded sin
  ∧ ∃ t : R, t = 0.125%R ∧
      ∀ fl np_sin : R -> R, accurate fl np_sin ->
        DialogClip.idle_offset fl np_sin t = 4
        ∧ ¬ nearest (DialogClip.idle_offset fl np_sin t)
              (fl (IZR 5 * np_sin (fl (t * 10))))%R
        ∧ nearest 5 (fl (IZR 5 * np_sin (fl (t * 10))))%R.
Proof.
  split; [apply unrounded_accurate|].
  exists 0.125%R. split; [done|]. intros fl np_sin Hacc.
  pose proof (idle_value_at_eighth fl np_sin Hacc) as [H1 H2].
  rewrite (idle_offset_at_eighth fl np_sin Hacc).
  split; [done|]. unfold nearest. split.
  - intros Hn. rewrite Rabs_left in Hn by (simpl; lra). simpl in Hn. lra.
  - rewrite Rabs_right by (simpl; lra). simpl. lra.
Qed.

Lemma movement_default (ty : string) :
  ty ∉ ["laugh"; "surprise"; "sad"; "excited"; "angry"; "confused"]%string ->
  DialogClip.shake_amount_of ty = 5 ∧ DialogClip.frequency_of ty = 10.
Proof.
  intros H. unfold DialogClip.shake_amount_of, DialogClip.frequency_of.
  assert (DialogClip.EVENT_MOVEMENTS !! ty = None) as ->; [|done].
  by apply not_elem_of_list_to_map_1.
Qed.

(** C4, amended: for every time [t] the displacement computed during
    rendering is the float product [S * sin (t * F)], as float64
    arithmetic and numpy's sine give it, with its fractional part dropped
    (truncated towards zero, not rounded), where [(S, F)] come from the
    fixed table laugh (15, 20), surprise (20, 30), sad (5, 10),
    excited (25, 40), angry (30, 50), confused (10, 15), an unknown emotion
    defaulting to (5, 10); the idle displacement is the float product
    [5 * sin (t * 10)] truncated the same way. *)
Theorem offsets_truncate (fl np_sin : R -> R) (t : R) (ty : string) :
  truncation (DialogClip.idle_offset fl np_sin t)
    (fl (IZR 5 * np_sin (fl (t * 10))))%R
  ∧ truncation (DialogClip.event_offset fl np_sin ty t)
      (fl (IZR (DialogClip.shake_amount_of ty)
           * np_sin (fl (t * IZR (DialogClip.frequency_of ty)))))%R
  ∧ (DialogClip.shake_amount_of "laugh", DialogClip.frequency_of "laugh") = (15, 20)
  ∧ (DialogClip.shake_amount_of "surprise", DialogClip.frequency_of "surprise") = (20, 30)
  ∧ (DialogClip.shake_amount_of "sad", DialogClip.frequency_of "sad") = (5, 10)
  ∧ (DialogClip.shake_amount_of "excited", DialogClip.frequency_of "excited") = (25, 40)
  ∧ (DialogClip.shake_amount_of "angry", DialogClip.frequency_of "angry") = (30, 50)
  ∧ (DialogClip.shake_amount_of "confused", DialogClip.frequency_of "confused") = (10, 15)
  ∧ (ty ∉ ["laugh"; "surprise"; "sad"; "excited"; "angry"; "confused"]%string ->
     (DialogClip.shake_amount_of ty, DialogClip.frequency_of ty) = (5, 10)).
Proof.
  split; [apply py_int_truncation|]. split; [apply py_int_truncation|].
  repeat (split; [vm_compute; reflexivity|]).
  intros H. by destruct (movement_default ty H) as [-> ->].
Qed.


Lemma shake_from (fl np_sin : R -> R) (evs : list (R * string)) (t : R)
    (offset : Z) (records : list log_record) :
  (foldl (DialogClip.event_step fl np_sin t) (offset, records) evs).1
  = match last (filter (fun ev : R * string =>
                          DialogClip.active fl t ev.1 = true) evs) with
    | Some ev => DialogClip.event_offset fl np_sin ev.2 t
    | None => offset
    end.
Proof.
  revert offset records. induction evs as [|[et ty] evs IH]; intros offset records.
  - done.
  - cbn [foldl DialogClip.event_step]. rewrite filter_cons. simpl.
    destruct (DialogClip.active fl t et) eqn:E.
    + rewrite decide_True by done. rewrite IH, last_cons.
      by destruct (last _).
    + rewrite decide_False by done. apply IH.
Qed.



Section Rendering.
Import DialogClip.
Variable fl : R -> R.
Variable np_sin : R -> R.
Variable loadable : Z -> bool.
Variable textbbox : font -> text -> Z * Z * Z * Z.
Variable multiline_textbbox : font -> text -> Z * Z * Z * Z.
Variable multiline_text : image -> Z * Z -> text -> font -> pixel -> image.
Variable paste : image -> image -> Z * Z -> image.

Local Abbreviation render :=
  (call fl np_sin loadable textbbox multiline_textbbox multiline_text paste).
Local Abbreviation caption self :=
  (SubtitleGenerator.create_subtitle_mask loadable textbbox
     multiline_textbbox multiline_text
     (frame_width self) (frame_height self) (clip_text self) 48).

Lemma fresh_frame (h : gmap positive image) (l : positive) :
  is_Some (h !! l) -> l ≠ fresh (dom h).
Proof.
  intros Hl ->. apply elem_of_dom in Hl. by apply is_fresh in Hl.
Qed.

Lemma call_without_sprite (self : clip) (t : R) (s : store) (bg : image) :
  heap s !! background self = Some bg ->
  char1 self = None ∨ char2 self = None ->
  render self t s
  = (Raises (Exception "AttributeError"),
     Store (<[fresh (dom (heap s)) := bg]> (heap s)) (slog s)).
Proof.
  intros Hbg Hnone. unfold call. rewrite Hbg.
  destruct Hnone as [-> | ->]; [done|]. by destruct (char1 self).
Qed.

Lemma call_with_sprites (self : clip) (t : R) (s : store)
    (bg c1 c2 : image) (r1 r2 : positive) :
  heap s !! background self = Some bg ->
  char1 self = Some r1 -> heap s !! r1 = Some c1 ->
  char2 self = Some r2 -> heap s !! r2 = Some c2 ->
  render self t s
  = (match caption self with
     | Raises e => Raises e
     | Returns subtitle =>
         overlay (pasted fl np_sin paste self t bg c1 c2) subtitle
     end,
     Store (<[fresh (dom (heap s)) := pasted fl np_sin paste self t bg c1 c2]>
              (heap s))
           (slog s ++ (shake fl np_sin (events self) t).2)).
Proof.
  intros Hbg Hr1 Hc1 Hr2 Hc2. unfold call, pasted.
  rewrite Hbg, Hr1, Hr2. cbn [heap slog].
  assert (Hn1 : r1 ≠ fresh (dom (heap s))) by (apply fresh_frame; eauto).
  assert (Hn2 : r2 ≠ fresh (dom (heap s))) by (apply fresh_frame; eauto).
  rewrite !lookup_insert_ne by done. rewrite Hc1, Hc2.
  destruct (shake fl np_sin (events self) t) as [offset records].
  cbn [fst snd].
  destruct (placements self (img_width c2) offset) as [box1 box2].
  unfold paste_into. cbn [heap slog fst snd].
  rewrite lookup_insert_eq, lookup_insert_ne, Hc1 by done.
  cbn [heap slog]. rewrite lookup_insert_eq, lookup_insert_ne by done.
  rewrite lookup_insert_ne, Hc2 by done. cbn [heap slog].
  rewrite !insert_insert_eq, lookup_insert_eq.
  by destruct (SubtitleGenerator.create_subtitle_mask _ _ _ _ _ _ _ _).
Qed.


(** C9: with the captured references pointing to images, calling the
    renderer a second time at the same [t], on the store the first call
    left, gives the same result (the same pixel buffer, or the same
    exception), and the call changes no image that was in the store
    before it: the background and the sprites are still there, as they
    were.  The clip itself, event list included, is an immutable value. *)
Theorem call_repeatable (self : clip) (t : R) (s : store) :
  live self s ->
  (render self t (render self t s).2).1 = (render self t s).1
  ∧ (∀ l img, heap s !! l = Some img ->
       heap (render self t s).2 !! l = Some img)
  ∧ live self (render self t s).2.
Proof.
  intros ([bg Hbg] & H1 & H2).
  assert (Hkeep : ∀ (img : image) (l : positive) (x : image),
            heap s !! l = Some x ->
            <[fresh (dom (heap s)) := img]> (heap s) !! l = Some x).
  { intros img l x Hl. rewrite lookup_insert_ne; [done|].
    intros <-. eapply fresh_frame; eauto. }
  destruct (char1 self) as [r1|] eqn:E1; [destruct (char2 self) as [r2|] eqn:E2|].
  - destruct (H1 r1 eq_refl) as [c1 Hc1]. destruct (H2 r2 eq_refl) as [c2 Hc2].
    rewrite (call_with_sprites self t s bg c1 c2 r1 r2) by done.
    cbn [fst snd]. split; [|split].
    + erewrite call_with_sprites; cbn [heap]; eauto.
    + intros l img Hl. cbn [heap]. eauto.
    + split; [|split]; cbn [heap].
      * eauto.
      * intros r Hr. rewrite E1 in Hr. injection Hr as <-. eauto.
      * intros r Hr. rewrite E2 in Hr. injection Hr as <-. eauto.
  - rewrite (call_without_sprite self t s bg) by eauto.
    cbn [fst snd]. split; [|split].
    + erewrite call_without_sprite; cbn [heap]; eauto.
    + intros l img Hl. cbn [heap]. eauto.
    + split; [|split]; cbn [heap].
      * eauto.
      * intros r Hr. rewrite E1 in Hr. injection Hr as <-.
        destruct (H1 r1 eq_refl). eauto.
      * intros r Hr. rewrite E2 in Hr. done.
  - rewrite (call_without_sprite self t s bg) by eauto.
    cbn [fst snd]. split; [|split].
    + erewrite call_without_sprite; cbn [heap]; eauto.
    + intros l img Hl. cbn [heap]. eauto.
    + split; [|split]; cbn [heap].
      * eauto.
      * intros r Hr. rewrite E1 in Hr. done.
      * intros r Hr. destruct (H2 r Hr). eauto.
Qed.
End Rendering.

Lemma call_repeatable_witness :
  let s := DialogClip.Store example_images [] in
  let self := DialogClip.init 1 (Some 2%positive) (Some 3%positive) (py "Hi")
                1 3.5 [(0.5%R, "laugh"%string)] in
  let render := DialogClip.call unrounded sin (fun _ => true) mono_bbox mono_bbox
                  corner_text corner_paste in
  live self s
  ∧ (render self 0.6%R (render self 0.6%R s).2).1 = (render self 0.6%R s).1.
Proof.
  intros s self render.
  assert (H : live self s).
  { split; [|split].
    - by exists example_background.
    - intros r Hr. injection Hr as <-. by exists example_sprite.
    - intros r Hr. injection Hr as <-. by exists example_sprite. }
  split; [exact H|].
  exact (proj1 (call_repeatable unrounded sin (fun _ => true) mono_bbox mono_bbox
                  corner_text corner_paste self 0.6%R s H)).
Defined.


Lemma offsets_truncate_witness :
  truncation (DialogClip.idle_offset unrounded sin 0.125)
    (unrounded (IZR 5 * sin (unrounded (0.125 * 10))))%R
  ∧ truncation (DialogClip.event_offset unrounded sin "wink" 0.125)
      (unrounded (IZR 5 * sin (unrounded (0.125 * IZR 10))))%R
  ∧ (DialogClip.shake_amount_of "wink", DialogClip.frequency_of "wink") = (5, 10).
Proof.
  destruct (offsets_truncate unrounded sin 0.125%R "wink")
    as (H1 & H2 & _ & _ & _ & _ & _ & _ & H).
  split; [exact H1|]. split; [exact H2|].
  apply H. apply (bool_decide_unpack _). vm_compute. exact I.
Defined.

(** ** AudioGenerator and VideoCreator *)

Section Swallowing.
Import AudioGenerator VideoCreator.
Variable gtts_save :
  text -> string -> string -> gmap string (list N)
  -> option exn * gmap string (list N).
Variable playht_stream :
  text -> string -> string -> gmap string (list N)
  -> option exn * gmap string (list N).

Lemma generate_gtts_returns (txt : text) (f lang : string) (w : world) :
  (generate_gtts gtts_save txt f lang w).1 = Returns ().
Proof. unfold generate_gtts. by destruct (gtts_save _ _ _ _) as [[e|] fs]. Qed.

Lemma generate_playht_returns (txt : text) (f voice : string) (w : world) :
  (generate_playht playht_stream txt f voice w).1 = Returns ().
Proof.
  unfold generate_playht. by destruct (playht_stream _ _ _ _) as [[e|] fs].
Qed.

Lemma generate_all_returns (s1 s2 : option positive) (i : nat)
    (jobs : list (text * (string * (string * list (R * string)))))
    (w : world) :
  (generate_all gtts_save playht_stream s1 s2 i jobs w).1 = Returns ().
Proof.
  revert i w. induction jobs as [|[txt [f [lang evs]]] jobs IH]; intros i w.
  - done.
  - cbn [generate_all]. destruct (decide (lang = "en"%string)) as [Hen|Hid].
    + pose proof (generate_playht_returns txt f
                    (voice_url (if in_first_half i then host s1 else maya s2)) w) as H.
      destruct (generate_playht _ _ _ _ _) as [[x|u] w1]; [done|]. apply IH.
    + pose proof (generate_gtts_returns txt f "id" w) as H.
      destruct (generate_gtts _ _ _ _ _) as [[x|u] w1]; [done|]. apply IH.
Qed.

End Swallowing.


Lemma in_first_half_spec (i : nat) :
  VideoCreator.in_first_half i = true <-> (i mod 4 = 0 ∨ i mod 4 = 1)%nat.
Proof.
  unfold VideoCreator.in_first_half. rewrite bool_decide_eq_true.
  rewrite !elem_of_cons, elem_of_nil. tauto.
Qed.

Lemma speaker_of_turn (i : nat) :
  (if VideoCreator.in_first_half i then 1 else 2)
  = (if decide (i mod 4 = 0 ∨ i mod 4 = 1)%nat then 1 else 2).
Proof.
  pose proof (in_first_half_spec i) as H.
  destruct (VideoCreator.in_first_half i);
    destruct (decide (i mod 4 = 0 ∨ i mod 4 = 1)%nat) as [Hd|Hd]; try done.
  - exfalso. apply Hd. by apply H.
  - apply H in Hd. done.
Qed.

Lemma place_from_clips (start : R) (clips : list VideoCreator.video_clip) :
  (VideoCreator.place_from start clips).*2 = clips.
Proof.
  revert start. induction clips as [|c clips IH]; intros start; [done|].
  simpl. by rewrite IH.
Qed.

Lemma place_from_first (start a : R) (c : VideoCreator.video_clip)
    (clips : list VideoCreator.video_clip) :
  VideoCreator.place_from start clips !! 0%nat = Some (a, c) -> a = start.
Proof. destruct clips; simpl; [done|]. by intros [= <- _]. Qed.

Lemma place_from_next (start a b : R) (c c' : VideoCreator.video_clip)
    (clips : list VideoCreator.video_clip) (i : nat) :
  VideoCreator.place_from start clips !! i = Some (a, c) ->
  VideoCreator.place_from start clips !! S i = Some (b, c') ->
  b = (a + VideoCreator.clip_duration c)%R.
Proof.
  revert start i. induction clips as [|x clips IH]; intros start i; [done|].
  destruct i as [|i]; simpl.
  - intros [= <- <-] H. by apply place_from_first in H.
  - apply IH.
Qed.

Lemma Rsum_cons (x : R) (l : list R) : Rsum (x :: l) = (x + Rsum l)%R.
Proof. done. Qed.

Lemma total_from (start : R) (clips : list VideoCreator.video_clip) :
  foldl (fun acc c => acc + VideoCreator.clip_duration c)%R start clips
  = (start + Rsum (VideoCreator.clip_duration <$> clips))%R.
Proof.
  revert start. induction clips as [|c clips IH]; intros start.
  - unfold Rsum. simpl. lra.
  - cbn [foldl]. rewrite IH, fmap_cons, Rsum_cons. lra.
Qed.

Lemma place_from_last (start a : R) (c : VideoCreator.video_clip)
    (clips : list VideoCreator.video_clip) :
  last (VideoCreator.place_from start clips) = Some (a, c) ->
  (a + VideoCreator.clip_duration c
   = start + Rsum (VideoCreator.clip_duration <$> clips))%R.
Proof.
  revert start. induction clips as [|x clips IH]; intros start; [done|].
  cbn [VideoCreator.place_from]. rewrite last_cons, fmap_cons, Rsum_cons.
  destruct (last (VideoCreator.place_from _ clips)) as [[a' c']|] eqn:E.
  - intros [= -> ->]. apply IH in E. lra.
  - intros [= <- <-]. destruct clips as [|y clips].
    + unfold Rsum. simpl. lra.
    + cbn [VideoCreator.place_from] in E. rewrite last_cons in E.
      by destruct (last _).
Qed.

Lemma place_from_lookup (start : R) (clips : list VideoCreator.video_clip)
    (i : nat) (c : VideoCreator.video_clip) :
  clips !! i = Some c ->
  VideoCreator.place_from start clips !! i
  = Some ((start + Rsum (VideoCreator.clip_duration <$> take i clips))%R, c).
Proof.
  revert start i. induction clips as [|x clips IH]; intros start i H; [done|].
  destruct i as [|i]; simpl in *.
  - injection H as ->. unfold Rsum. simpl. do 2 f_equal. lra.
  - rewrite (IH _ _ H). do 2 f_equal.
    change (list_fmap _ _ VideoCreator.clip_duration (take i clips))
      with (VideoCreator.clip_duration <$> take i clips).
    lra.
Qed.

Lemma audio_files_lookup (a n i : nat) :
  (i < n)%nat ->
  map VideoCreator.audio_file (seq a n) !! i
  = Some (VideoCreator.audio_file (a + i)).
Proof.
  revert a i. induction n as [|n IH]; intros a i Hi; [lia|].
  destruct i as [|i]; simpl.
  - by rewrite Nat.add_0_r.
  - rewrite IH by lia. by rewrite Nat.add_succ_r.
Qed.

Lemma parse_texts_map (texts : list text) (w : AudioGenerator.world) :
  (VideoCreator.parse_texts texts w).1
  = ((fun t => (EventParser.parse_events t).1) <$> texts,
     (fun t => (EventParser.parse_events t).2) <$> texts).
Proof.
  revert w. induction texts as [|txt texts IH]; intros w; [done|].
  cbn [VideoCreator.parse_texts].
  destruct (EventParser.parse_events txt) as [cleaned evs] eqn:E.
  specialize (IH (AudioGenerator.emit (LogInfo "Processed Text" cleaned) w)).
  destruct (VideoCreator.parse_texts texts _) as [[ps es] w2]. simpl in IH.
  injection IH as -> ->. rewrite !fmap_cons. simpl. by rewrite E.
Qed.

Lemma parse_texts_files (texts : list text) (w : AudioGenerator.world) :
  AudioGenerator.files (VideoCreator.parse_texts texts w).2
  = AudioGenerator.files w.
Proof.
  revert w. induction texts as [|txt texts IH]; intros w; [done|].
  cbn [VideoCreator.parse_texts].
  destruct (EventParser.parse_events txt) as [cleaned evs].
  specialize (IH (AudioGenerator.emit (LogInfo "Processed Text" cleaned) w)).
  by destruct (VideoCreator.parse_texts texts _) as [[ps es] w2].
Qed.

Lemma clip_jobs_lookup (texts : list text) (i : nat) (txt : text) :
  texts !! i = Some txt ->
  zip ((fun t => (EventParser.parse_events t).1) <$> texts)
      (zip (map VideoCreator.audio_file (seq 0 (length texts)))
           ((fun t => (EventParser.parse_events t).2) <$> texts)) !! i
  = Some ((EventParser.parse_events txt).1,
          (VideoCreator.audio_file i, (EventParser.parse_events txt).2)).
Proof.
  intros Hi. rewrite lookup_zip_with, list_lookup_fmap, Hi. simpl.
  rewrite lookup_zip_with, list_lookup_fmap, Hi.
  rewrite (audio_files_lookup 0) by (by eapply lookup_lt_Some). done.
Qed.

Lemma clip_jobs_length (texts : list text) :
  length (zip ((fun t => (EventParser.parse_events t).1) <$> texts)
            (zip (map VideoCreator.audio_file (seq 0 (length texts)))
                 ((fun t => (EventParser.parse_events t).2) <$> texts)))
  = length texts.
Proof. rewrite !length_zip_with, !length_fmap, length_seq. lia. Qed.

Section Sequencing.
Import AudioGenerator VideoCreator.
Variable fl : R -> R.
Variable np_sin : R -> R.
Variable loadable : Z -> bool.
Variable textbbox : font -> text -> Z * Z * Z * Z.
Variable multiline_textbbox : font -> text -> Z * Z * Z * Z.
Variable multiline_text : image -> Z * Z -> text -> font -> pixel -> image.
Variable paste : image -> image -> Z * Z -> image.
Variable gtts_save :
  text -> string -> string -> gmap string (list N)
  -> option exn * gmap string (list N).
Variable playht_stream :
  text -> string -> string -> gmap string (list N)
  -> option exn * gmap string (list N).
Variable audio_duration : list N -> option R.

Local Abbreviation new_clip :=
  (VideoClip fl np_sin loadable textbbox multiline_textbbox multiline_text
     paste).
Local Abbreviation clips_of :=
  (make_clips fl np_sin loadable textbbox multiline_textbbox multiline_text
     paste audio_duration).
Local Abbreviation build :=
  (build_final_video fl np_sin loadable textbbox multiline_textbbox
     multiline_text paste gtts_save playht_stream audio_duration).

Lemma AudioFileClip_files (f : string) (w1 w2 : world) :
  files w1 = files w2 ->
  AudioFileClip audio_duration f w1 = AudioFileClip audio_duration f w2.
Proof. unfold AudioFileClip. by intros ->. Qed.

Lemma AudioFileClip_raises (f : string) (w : world) (e : exn) :
  AudioFileClip audio_duration f w = Raises e -> e = Exception "OSError".
Proof.
  unfold AudioFileClip. destruct (files w !! f) as [bytes|]; [|by intros [= <-]].
  destruct (audio_duration bytes); [done | by intros [= <-]].
Qed.

Lemma AudioFileClip_unreadable (f : string) (w : world) :
  files w !! f = None
  ∨ (∃ bytes, files w !! f = Some bytes ∧ audio_duration bytes = None) ->
  AudioFileClip audio_duration f w = Raises (Exception "OSError").
Proof.
  unfold AudioFileClip. intros [->|(bytes & -> & ->)]; done.
Qed.

Lemma VideoClip_value (dialog : DialogClip.clip) (d : R) (w w' : world)
    (h h' : gmap positive image) (c : video_clip) :
  new_clip dialog d w h = (Returns c, w', h') -> c = Movie dialog d None.
Proof.
  unfold VideoClip. destruct (DialogClip.call _ _ _ _ _ _ _ _ _ _) as [[e|buf] s].
  - done.
  - by intros [= <- _ _].
Qed.

Lemma VideoClip_files (dialog : DialogClip.clip) (d : R) (w : world)
    (h : gmap positive image) :
  files (new_clip dialog d w h).1.2 = files w.
Proof.
  unfold VideoClip.
  by destruct (DialogClip.call _ _ _ _ _ _ _ _ _ _) as [[e|buf] s].
Qed.

Lemma make_clips_files (bg : positive) (s1 s2 : option positive) (k : nat)
    (jobs : list (text * (string * list (R * string)))) (w : world)
    (h : gmap positive image) :
  files (clips_of bg s1 s2 k jobs w h).1.2 = files w.
Proof.
  revert k w h. induction jobs as [|[txt [f evs]] jobs IH]; intros k w h; [done|].
  cbn [make_clips]. destruct (AudioFileClip audio_duration f w) as [e|d]; [done|].
  pose proof (VideoClip_files
                (DialogClip.init bg s1 s2 txt (if in_first_half k then 1 else 2)
                   (fl (d + 0.5)) evs)
                (fl (d + 0.5)) (emit (LogInfo "DialogClip created" txt) w) h)
    as Hf.
  destruct (new_clip _ _ _ _) as [[[e|c] w2] h2]; [exact Hf|].
  specialize (IH (S k) w2 h2).
  destruct (clips_of _ _ _ _ _ _ _) as [[[e|clips] w3] h3];
    simpl in *; congruence.
Qed.

Lemma make_clips_from (bg : positive) (s1 s2 : option positive) (k : nat)
    (jobs : list (text * (string * list (R * string)))) (w w' : world)
    (h h' : gmap positive image) (clips : list video_clip) :
  clips_of bg s1 s2 k jobs w h = (Returns clips, w', h') ->
  length clips = length jobs
  ∧ ∀ i txt f evs, jobs !! i = Some (txt, (f, evs)) ->
      ∃ d, AudioFileClip audio_duration f w = Returns d
        ∧ clips !! i
          = Some (Movie
                    (DialogClip.init bg s1 s2 txt
                       (if in_first_half (k + i) then 1 else 2)
                       (fl (d + 0.5)) evs)
                    (fl (d + 0.5)) (Some f)).
Proof.
  revert k w w' h h' clips.
  induction jobs as [|[txt0 [f0 evs0]] jobs IH]; intros k w w' h h' clips H.
  - simpl in H. injection H as <- <- <-. split; [done|]. intros i ? ? ? Hi.
    by rewrite lookup_nil in Hi.
  - cbn [make_clips] in H.
    destruct (AudioFileClip audio_duration f0 w) as [e|d] eqn:Ed; [done|].
    pose proof (VideoClip_files
                  (DialogClip.init bg s1 s2 txt0
                     (if in_first_half k then 1 else 2) (fl (d + 0.5)) evs0)
                  (fl (d + 0.5)) (emit (LogInfo "DialogClip created" txt0) w) h)
      as Hf.
    destruct (new_clip _ _ _ _) as [[[e|c] w2] h2] eqn:Ec; [done|].
    apply VideoClip_value in Ec as ->. simpl in Hf.
    destruct (clips_of _ _ _ _ _ _ _) as [[[e|rest] w3] h3] eqn:Er; [done|].
    injection H as <- <- <-.
    destruct (IH _ _ _ _ _ _ Er) as [Hlen Hrest]. split; [simpl; by rewrite Hlen|].
    intros [|i] txt f evs Hi; simpl in Hi.
    + injection Hi as <- <- <-. exists d. rewrite Nat.add_0_r. done.
    + destruct (Hrest i txt f evs Hi) as (d' & Hd' & Hc).
      exists d'. rewrite (AudioFileClip_files f w2 w) in Hd' by done.
      split; [done|]. simpl. rewrite Hc. by rewrite Nat.add_succ_r.
Qed.

(** An unreadable audio file stops the clip loop, whatever happens at the
    turns before it. *)
Lemma make_clips_raises (bg : positive) (s1 s2 : option positive)
    (k : nat) (pre : list (text * (string * list (R * string))))
    (txt : text) (f : string) (evs : list (R * string))
    (post : list (text * (string * list (R * string)))) (w : world)
    (h : gmap positive image) :
  AudioFileClip audio_duration f w = Raises (Exception "OSError") ->
  ∃ e, (clips_of bg s1 s2 k (pre ++ (txt, (f, evs)) :: post) w h).1.1
       = Raises e.
Proof.
  revert k w h. induction pre as [|[txt0 [f0 evs0]] pre IH]; intros k w h Hbad.
  - simpl. rewrite Hbad. by eexists.
  - rewrite <- app_comm_cons. cbn [make_clips].
    destruct (AudioFileClip audio_duration f0 w) as [e|d]; [by eexists|].
    pose proof (VideoClip_files
                  (DialogClip.init bg s1 s2 txt0
                     (if in_first_half k then 1 else 2) (fl (d + 0.5)) evs0)
                  (fl (d + 0.5)) (emit (LogInfo "DialogClip created" txt0) w) h)
      as Hf.
    destruct (new_clip _ _ _ _) as [[[e|c] w2] h2]; [by eexists|].
    simpl in Hf.
    destruct (IH (S k) w2 h2) as [e He].
    { by rewrite (AudioFileClip_files f w2 w). }
    destruct (clips_of _ _ _ _ _ _ _) as [[[e'|clips] w3] h3]; [by eexists|].
    done.
Qed.

(** What a build that returns has made. *)
Lemma build_from (bg : positive) (s1 s2 : option positive)
    (texts : list text) (languages : list string) (w w' : world)
    (h h' : gmap positive image) (final_video : timeline) :
  build bg s1 s2 texts languages w h = (Returns final_video, w', h') ->
  ∃ clips,
    final_video = concatenate_videoclips clips
    ∧ length clips = length texts
    ∧ files w'
      = files (after_generation gtts_save playht_stream s1 s2 texts
                 languages w)
    ∧ ∀ i txt, texts !! i = Some txt ->
        ∃ d, AudioFileClip audio_duration (audio_file i) w' = Returns d
          ∧ clips !! i
            = Some (Movie
                      (DialogClip.init bg s1 s2
                         (EventParser.parse_events txt).1
                         (if in_first_half i then 1 else 2)
                         (fl (d + 0.5)) (EventParser.parse_events txt).2)
                      (fl (d + 0.5)) (Some (audio_file i))).
Proof.
  unfold build_final_video, after_generation. intros H.
  pose proof (parse_texts_map texts
                (emit (LogInfo "Starting video creation process" []) w)) as Hp.
  destruct (parse_texts texts _) as [[ps es] w1]. simpl in Hp.
  injection Hp as -> ->.
  destruct (generate_all _ _ _ _ _ _ _) as [[e|u] w2]; [done|].
  pose proof (make_clips_files bg s1 s2 0
                (zip ((fun t => (EventParser.parse_events t).1) <$> texts)
                   (zip (map audio_file (seq 0 (length texts)))
                      ((fun t => (EventParser.parse_events t).2) <$> texts)))
                w2 h) as Hf.
  destruct (clips_of _ _ _ _ _ _ _) as [[[e|clips] w3] h3] eqn:Ec; [done|].
  injection H as <- <- <-. simpl in Hf.
  destruct (make_clips_from _ _ _ _ _ _ _ _ _ _ Ec) as [Hlen Hclips].
  exists clips. split; [done|]. split; [by rewrite Hlen, clip_jobs_length|].
  split; [done|]. intros i txt Hi.
  destruct (Hclips i _ _ _ (clip_jobs_lookup texts i txt Hi)) as (d & Hd & Hc).
  exists d. by rewrite (AudioFileClip_files _ w3 w2).
Qed.
End Sequencing.

Lemma same_canvas_trans (a b c : image) :
  same_canvas a b -> same_canvas b c -> same_canvas a c.
Proof. intros (? & ? & ?) (? & ? & ?). repeat split; congruence. Qed.

Lemma staged_insert (bg : positive) (s1 s2 : option positive)
    (h : gmap positive image) (frame : image) :
  staged bg s1 s2 h -> staged bg s1 s2 (<[fresh (dom h) := frame]> h).
Proof.
  assert (Hkeep : ∀ l x, h !! l = Some x ->
                    <[fresh (dom h) := frame]> h !! l = Some x).
  { intros l x Hl. rewrite lookup_insert_ne; [done|].
    intros <-. assert (Hin : fresh (dom h) ∈ dom h) by (apply elem_of_dom; eauto).
    by apply is_fresh in Hin. }
  intros ((b & Hb & Hrest) & (r1 & c1 & -> & Hc1 & Hm1)
          & (r2 & c2 & -> & Hc2 & Hm2)).
  split; [|split].
  - exists b. split; [by apply Hkeep | done].
  - exists r1, c1. split; [done|]. split; [by apply Hkeep | done].
  - exists r2, c2. split; [done|]. split; [by apply Hkeep | done].
Qed.

Section Staging.
Import AudioGenerator VideoCreator.
Variable fl : R -> R.
Variable np_sin : R -> R.
Variable loadable : Z -> bool.
Variable textbbox : font -> text -> Z * Z * Z * Z.
Variable multiline_textbbox : font -> text -> Z * Z * Z * Z.
Variable multiline_text : image -> Z * Z -> text -> font -> pixel -> image.
Variable paste : image -> image -> Z * Z -> image.
Variable gtts_save :
  text -> string -> string -> gmap string (list N)
  -> option exn * gmap string (list N).
Variable playht_stream :
  text -> string -> string -> gmap string (list N)
  -> option exn * gmap string (list N).
Variable audio_duration : list N -> option R.
Hypothesis font_present : ∀ size, loadable size = true.
Hypothesis paste_canvas : paste_keeps_canvas paste.
Hypothesis text_canvas : text_keeps_canvas multiline_text.

Local Abbreviation render :=
  (DialogClip.call fl np_sin loadable textbbox multiline_textbbox
     multiline_text paste).
Local Abbreviation new_clip :=
  (VideoClip fl np_sin loadable textbbox multiline_textbbox multiline_text
     paste).
Local Abbreviation clips_of :=
  (make_clips fl np_sin loadable textbbox multiline_textbbox multiline_text
     paste audio_duration).
Local Abbreviation build :=
  (build_final_video fl np_sin loadable textbbox multiline_textbbox
     multiline_text paste gtts_save playht_stream audio_duration).

Lemma layout_returns (w : Z) (txt : text) (fontsize : Z) :
  ∃ fit, SubtitleGenerator.layout loadable textbbox w txt fontsize
         = Returns fit.
Proof.
  unfold SubtitleGenerator.layout, SubtitleGenerator.truetype.
  rewrite font_present. destruct (decide (fontsize <= 20)) as [Hle|Hgt].
  - rewrite fit_font_stop by done. by eexists.
  - destruct (fit_font_result loadable textbbox font_present txt (w - 100)
                fontsize (TrueType fontsize) [] ltac:(lia))
      as (s & fit & -> & _).
    by exists fit.
Qed.

Lemma outline_canvas (m : image) (l : list (Z * Z)) (x y : Z) (s : text)
    (f : font) :
  same_canvas
    (foldl (fun m '(ox, oy) =>
              multiline_text m (x + ox, y + oy) s f (0, 0, 0, 255)%N) m l)
    m.
Proof.
  revert m. induction l as [|[ox oy] l IH]; intros m; [done|].
  cbn [foldl]. eapply same_canvas_trans; [apply IH | apply text_canvas].
Qed.

(** The caption is an RGBA picture of the size asked for. *)
Lemma caption_canvas (w h : Z) (txt : text) (fontsize : Z) :
  ∃ subtitle,
    SubtitleGenerator.create_subtitle_mask loadable textbbox
      multiline_textbbox multiline_text w h txt fontsize = Returns subtitle
    ∧ img_mode subtitle = "RGBA"%string
    ∧ img_width subtitle = w ∧ img_height subtitle = h.
Proof.
  unfold SubtitleGenerator.create_subtitle_mask.
  destruct (layout_returns w txt fontsize) as [fit ->].
  destruct (multiline_textbbox _ _) as [[[bx0 by0] bx1] by1].
  eexists. split; [reflexivity|].
  match goal with
  | |- img_mode ?x = _ ∧ _ =>
      assert (Hc : same_canvas x (SubtitleGenerator.new_rgba w h))
  end.
  { eapply same_canvas_trans; [apply text_canvas | apply outline_canvas]. }
  destruct Hc as (Hm & Hw & Hh). split; [exact Hm|]. split; [exact Hw | exact Hh].
Qed.

(** With a background of three channels that has the size of the frame,
    the call returns the frame under the caption. *)
Lemma call_staged (self : DialogClip.clip) (t : R) (s : DialogClip.store)
    (bg c1 c2 : image) (r1 r2 : positive) :
  DialogClip.heap s !! DialogClip.background self = Some bg ->
  DialogClip.char1 self = Some r1 -> DialogClip.heap s !! r1 = Some c1 ->
  DialogClip.char2 self = Some r2 -> DialogClip.heap s !! r2 = Some c2 ->
  three_band (img_mode bg) = true ->
  img_width bg = DialogClip.frame_width self ->
  img_height bg = DialogClip.frame_height self ->
  ∃ subtitle,
    SubtitleGenerator.create_subtitle_mask loadable textbbox
      multiline_textbbox multiline_text (DialogClip.frame_width self)
      (DialogClip.frame_height self) (DialogClip.clip_text self) 48
    = Returns subtitle
    ∧ render self t s
      = (Returns (DialogClip.overlay_pixels
                    (img_pixels (pasted fl np_sin paste self t bg c1 c2))
                    (img_pixels subtitle)),
         DialogClip.Store
           (<[fresh (dom (DialogClip.heap s))
              := pasted fl np_sin paste self t bg c1 c2]> (DialogClip.heap s))
           (DialogClip.slog s
            ++ (DialogClip.shake fl np_sin (DialogClip.events self) t).2)).
Proof.
  intros Hbg Hr1 Hc1 Hr2 Hc2 Hband Hw Hh.
  destruct (caption_canvas (DialogClip.frame_width self)
              (DialogClip.frame_height self) (DialogClip.clip_text self) 48)
    as (subtitle & Hcap & Hmode & Hsw & Hsh).
  exists subtitle. split; [exact Hcap|].
  rewrite (call_with_sprites fl np_sin loadable textbbox multiline_textbbox
             multiline_text paste self t s bg c1 c2 r1 r2) by done.
  rewrite Hcap. f_equal.
  assert (Hcanvas : same_canvas (pasted fl np_sin paste self t bg c1 c2) bg).
  { unfold pasted.
    eapply same_canvas_trans; [apply paste_canvas | apply paste_canvas]. }
  destruct Hcanvas as (Hm & Hpw & Hph).
  unfold DialogClip.overlay. rewrite Hmode, Hm, Hband.
  rewrite bool_decide_eq_true_2 by (split; congruence). done.
Qed.

Lemma VideoClip_staged (bg : positive) (s1 s2 : option positive)
    (txt : text) (speaking : Z) (d : R) (evs : list (R * string))
    (w : world) (h : gmap positive image) :
  staged bg s1 s2 h ->
  ∃ frame records,
    new_clip (DialogClip.init bg s1 s2 txt speaking d evs) d w h
    = (Returns (Movie (DialogClip.init bg s1 s2 txt speaking d evs) d None),
       World (files w) (log w ++ records),
       <[fresh (dom h) := frame]> h).
Proof.
  intros ((b & Hb & Hband & Hbw & Hbh) & (r1 & c1 & -> & Hc1 & _)
          & (r2 & c2 & -> & Hc2 & _)).
  destruct (call_staged
              (DialogClip.init bg (Some r1) (Some r2) txt speaking d evs) 0
              (DialogClip.Store h (log w)) b c1 c2 r1 r2)
    as (subtitle & _ & Hcall); try done.
  unfold VideoClip. rewrite Hcall. cbn [DialogClip.heap DialogClip.slog].
  by eexists _, _.
Qed.

Lemma make_clips_returns (bg : positive) (s1 s2 : option positive) (k : nat)
    (jobs : list (text * (string * list (R * string)))) (w : world)
    (h : gmap positive image) :
  staged bg s1 s2 h ->
  (∀ i txt f evs, jobs !! i = Some (txt, (f, evs)) ->
     ∃ d, AudioFileClip audio_duration f w = Returns d) ->
  ∃ clips w' h', clips_of bg s1 s2 k jobs w h = (Returns clips, w', h').
Proof.
  revert k w h. induction jobs as [|[txt [f evs]] jobs IH];
    intros k w h Hst Hjobs.
  - by eexists _, _, _.
  - cbn [make_clips]. destruct (Hjobs 0%nat _ _ _ eq_refl) as [d ->].
    destruct (VideoClip_staged bg s1 s2 txt (if in_first_half k then 1 else 2)
                (fl (d + 0.5)) evs (emit (LogInfo "DialogClip created" txt) w)
                h Hst) as (frame & records & ->).
    destruct (IH (S k)
                (World (files (emit (LogInfo "DialogClip created" txt) w))
                   (log (emit (LogInfo "DialogClip created" txt) w) ++ records))
                (<[fresh (dom h) := frame]> h)) as (clips & w' & h' & ->).
    + by apply staged_insert.
    + intros i txt' f' evs' Hi.
      rewrite (AudioFileClip_files audio_duration f' _ w) by done.
      apply (Hjobs (S i) _ _ _ Hi).
    + by eexists _, _, _.
Qed.

Lemma make_clips_oserror (bg : positive) (s1 s2 : option positive)
    (k : nat) (pre : list (text * (string * list (R * string))))
    (txt : text) (f : string) (evs : list (R * string))
    (post : list (text * (string * list (R * string)))) (w : world)
    (h : gmap positive image) :
  staged bg s1 s2 h ->
  AudioFileClip audio_duration f w = Raises (Exception "OSError") ->
  (clips_of bg s1 s2 k (pre ++ (txt, (f, evs)) :: post) w h).1.1
  = Raises (Exception "OSError").
Proof.
  revert k w h. induction pre as [|[txt0 [f0 evs0]] pre IH];
    intros k w h Hst Hbad.
  - simpl. by rewrite Hbad.
  - rewrite <- app_comm_cons. cbn [make_clips].
    destruct (AudioFileClip audio_duration f0 w) as [e|d] eqn:E0.
    { by rewrite (AudioFileClip_raises audio_duration f0 w e E0). }
    destruct (VideoClip_staged bg s1 s2 txt0
                (if in_first_half k then 1 else 2) (fl (d + 0.5)) evs0
                (emit (LogInfo "DialogClip created" txt0) w) h Hst)
      as (frame & records & ->).
    specialize (IH (S k)
                  (World (files (emit (LogInfo "DialogClip created" txt0) w))
                     (log (emit (LogInfo "DialogClip created" txt0) w)
                      ++ records))
                  (<[fresh (dom h) := frame]> h)
                  (staged_insert _ _ _ _ _ Hst)).
    rewrite (AudioFileClip_files audio_duration f _ w) in IH by done.
    specialize (IH Hbad).
    by destruct (clips_of _ _ _ _ _ _ _) as [[[e|clips] w3] h3].
Qed.

(** With the images in place, the build returns as soon as every audio
    file can be read when the clip loop starts. *)
Lemma build_returns (bg : positive) (s1 s2 : option positive)
    (texts : list text) (languages : list string) (w : world)
    (h : gmap positive image) :
  staged bg s1 s2 h ->
  (∀ i, (i < length texts)%nat ->
     ∃ d, AudioFileClip audio_duration (audio_file i)
            (after_generation gtts_save playht_stream s1 s2 texts languages w)
          = Returns d) ->
  ∃ final_video w' h',
    build bg s1 s2 texts languages w h = (Returns final_video, w', h').
Proof.
  unfold build_final_video, after_generation. intros Hst Haudio.
  pose proof (parse_texts_map texts
                (emit (LogInfo "Starting video creation process" []) w)) as Hp.
  destruct (parse_texts texts _) as [[ps es] w1]. simpl in Hp.
  injection Hp as -> ->.
  pose proof (generate_all_returns gtts_save playht_stream s1 s2 0
                (zip ((fun t => (EventParser.parse_events t).1) <$> texts)
                   (zip (map audio_file (seq 0 (length texts)))
                      (zip languages
                         ((fun t => (EventParser.parse_events t).2) <$> texts))))
                w1) as Hr.
  destruct (generate_all _ _ _ _ _ _ _) as [[e|u] w2]; [done|].
  cbn [snd] in Haudio.
  destruct (make_clips_returns bg s1 s2 0
              (zip ((fun t => (EventParser.parse_events t).1) <$> texts)
                 (zip (map audio_file (seq 0 (length texts)))
                    ((fun t => (EventParser.parse_events t).2) <$> texts)))
              w2 h Hst) as (clips & w' & h' & ->).
  - intros i txt f evs Hi.
    assert (Hlt : (i < length texts)%nat).
    { apply lookup_lt_Some in Hi. by rewrite clip_jobs_length in Hi. }
    destruct (lookup_lt_is_Some_2 texts i Hlt) as [txt' Ht].
    rewrite (clip_jobs_lookup texts i txt' Ht) in Hi. injection Hi as _ <- _.
    by apply Haudio.
  - by eexists _, _, _.
Qed.
End Staging.

Section Timeline.
Import AudioGenerator VideoCreator.
Variable fl : R -> R.
Variable np_sin : R -> R.
Variable loadable : Z -> bool.
Variable textbbox : font -> text -> Z * Z * Z * Z.
Variable multiline_textbbox : font -> text -> Z * Z * Z * Z.
Variable multiline_text : image -> Z * Z -> text -> font -> pixel -> image.
Variable paste : image -> image -> Z * Z -> image.
Variable gtts_save :
  text -> string -> string -> gmap string (list N)
  -> option exn * gmap string (list N).
Variable playht_stream :
  text -> string -> string -> gmap string (list N)
  -> option exn * gmap string (list N).
Variable audio_duration : list N -> option R.

Local Abbreviation build :=
  (build_final_video fl np_sin loadable textbbox multiline_textbbox
     multiline_text paste gtts_save playht_stream audio_duration).

(** C6: when [create_conversation_video_oop] has built its final video
    from an ordered list of turns, the timeline has one clip per turn, in
    the order of the turns.  The clip of turn [i] lasts the duration of
    its audio file [dialog_i.mp3] plus 0.5 seconds (a float sum), declares
    the same duration to its renderer, shows the clean text and the events
    of text [i], carries that audio file, and has character 1 speaking
    when [i mod 4] is 0 or 1 and character 2 otherwise.  The first clip
    starts at 0, each clip starts at the sum of the durations of the clips
    before it, that is exactly when the clip before it ends, the last one
    ends with the timeline, and the total duration is the sum of the clip
    durations. *)
Theorem turn_sequence (bg : positive) (s1 s2 : option positive)
    (texts : list text) (languages : list string) (w w' : world)
    (h h' : gmap positive image) (final_video : timeline) :
  build bg s1 s2 texts languages w h = (Returns final_video, w', h') ->
  length (placed final_video) = length texts
  ∧ (∀ i txt, texts !! i = Some txt ->
       ∃ start c d,
         placed final_video !! i = Some (start, c)
         ∧ AudioFileClip audio_duration (audio_file i) w' = Returns d
         ∧ clip_duration c = fl (d + 0.5)
         ∧ DialogClip.duration (make_frame c) = fl (d + 0.5)
         ∧ DialogClip.speaking_char (make_frame c)
           = (if decide (i mod 4 = 0 ∨ i mod 4 = 1)%nat then 1 else 2)
         ∧ DialogClip.clip_text (make_frame c)
           = (EventParser.parse_events txt).1
         ∧ DialogClip.events (make_frame c)
           = (EventParser.parse_events txt).2
         ∧ audio c = Some (audio_file i)
         ∧ start = Rsum (clip_duration <$> take i (placed final_video).*2))
  ∧ (∀ a c, placed final_video !! 0%nat = Some (a, c) -> a = 0%R)
  ∧ (∀ i a c b c',
       placed final_video !! i = Some (a, c) ->
       placed final_video !! S i = Some (b, c') ->
       b = (a + clip_duration c)%R)
  ∧ (∀ a c, last (placed final_video) = Some (a, c) ->
       (a + clip_duration c)%R = total_duration final_video)
  ∧ total_duration final_video
    = Rsum (clip_duration <$> (placed final_video).*2).
Proof.
  intros H.
  destruct (build_from fl np_sin loadable textbbox multiline_textbbox
              multiline_text paste gtts_save playht_stream audio_duration
              bg s1 s2 texts languages w w' h h' final_video H)
    as (clips & -> & Hlen & _ & Hclips).
  unfold concatenate_videoclips. cbn [placed total_duration].
  rewrite place_from_clips.
  assert (Htotal : foldl (fun acc c => acc + clip_duration c)%R 0%R clips
                   = Rsum (clip_duration <$> clips)).
  { rewrite total_from. lra. }
  split; [|split; [|split; [|split; [|split]]]].
  - by rewrite <- (length_fmap snd), place_from_clips.
  - intros i txt Hi. destruct (Hclips i txt Hi) as (d & Hd & Hc).
    eexists _, _, d. split; [apply place_from_lookup, Hc|].
    split; [exact Hd|]. cbn [clip_duration make_frame audio].
    unfold DialogClip.init.
    cbn [DialogClip.duration DialogClip.speaking_char DialogClip.clip_text
         DialogClip.events].
    repeat split; try done.
    + apply speaker_of_turn.
    + lra.
  - intros a c. apply place_from_first.
  - intros i a c b c'. apply place_from_next.
  - intros a c Hl. rewrite Htotal. apply place_from_last in Hl. lra.
  - exact Htotal.
Qed.
End Timeline.

Lemma corner_mark_canvas (m : image) (xy : Z * Z) (p : pixel) :
  same_canvas (corner_mark m xy p) m.
Proof. unfold corner_mark. by destruct (bool_decide _). Qed.

Lemma corner_paste_canvas : paste_keeps_canvas corner_paste.
Proof.
  intros d s box. unfold corner_paste.
  destruct (img_pixels s); [done | apply corner_mark_canvas].
Qed.

Lemma corner_text_canvas : text_keeps_canvas corner_text.
Proof.
  intros m xy s f fill. unfold corner_text.
  destruct s; [done | apply corner_mark_canvas].
Qed.

Lemma example_staged :
  staged 1 (Some 2%positive) (Some 3%positive) example_images.
Proof.
  split; [|split].
  - exists example_background. by repeat split.
  - exists 2%positive, example_sprite. by repeat split.
  - exists 3%positive, example_sprite. by repeat split.
Qed.


Lemma turn_sequence_witness :
  ∃ final_video w' h',
    VideoCreator.build_final_video unrounded sin (fun _ => true) mono_bbox
      mono_bbox corner_text corner_paste failing_gtts working_playht
      example_duration 1 (Some 2%positive) (Some 3%positive)
      [py "Hi [laugh]"; py "Bye"] ["en"; "en"]%string
      (AudioGenerator.World ∅ []) example_images
    = (Returns final_video, w', h')
    ∧ length (VideoCreator.placed final_video) = 2%nat
    ∧ VideoCreator.total_duration final_video
      = Rsum (VideoCreator.clip_duration
                <$> (VideoCreator.placed final_video).*2).
Proof.
  destruct (build_returns unrounded sin (fun _ => true) mono_bbox mono_bbox
              corner_text corner_paste failing_gtts working_playht
              example_duration (fun _ => eq_refl) corner_paste_canvas
              corner_text_canvas 1 (Some 2%positive) (Some 3%positive)
              [py "Hi [laugh]"; py "Bye"] ["en"; "en"]%string
              (AudioGenerator.World ∅ []) example_images example_staged)
    as (final_video & w' & h' & H).
  { intros [|[|i]] Hi; [| |simpl in Hi; lia];
      exists 3.0%R; vm_compute; reflexivity. }
  exists final_video, w', h'. split; [exact H|].
  destruct (turn_sequence unrounded sin (fun _ => true) mono_bbox mono_bbox
              corner_text corner_paste failing_gtts working_playht
              example_duration 1 (Some 2%positive) (Some 3%positive)
              [py "Hi [laugh]"; py "Bye"] ["en"; "en"]%string
              (AudioGenerator.World ∅ []) w' example_images h' final_video H)
    as (Hlen & _ & _ & _ & _ & Ht).
  split; [exact Hlen | exact Ht].
Defined.

(** * Further properties *)

(** ** More on EventParser *)

Lemma re_sub_sublist (p s : text) : re_sub p s `sublist_of` s.
Proof.
  remember (length s) as k eqn:Hk. revert s Hk.
  induction k as [k IH] using lt_wf_ind. intros s ->.
  destruct s as [|c s]; [by rewrite re_sub_nil|].
  destruct (startswith p (c :: s)) eqn:E.
  - rewrite (re_sub_match _ _ _ E). apply sublist_cons.
    etrans; [|apply (sublist_drop _ (Nat.pred (length p)))].
    apply (IH (length (drop (Nat.pred (length p)) s))); [|done].
    rewrite length_drop. simpl. lia.
  - rewrite (re_sub_skip _ _ _ E). apply sublist_skip.
    apply (IH (length s)); [simpl; lia | done].
Qed.

Lemma strip_sublist (s : text) : strip s `sublist_of` s.
Proof.
  unfold strip.
  destruct (lstrip_split s) as (x & Hs & _).
  destruct (rstrip_split (lstrip s)) as (y & Hl & _).
  rewrite Hs at 2. rewrite Hl at 2.
  apply sublist_inserts_l, sublist_inserts_r. done.
Qed.

Lemma parse_step_sublist (st : text * list (R * string)) (ep : string * text) :
  (EventParser.parse_step st ep).1 `sublist_of` st.1.
Proof.
  destruct st as [txt evs], ep as [ty pat]. simpl.
  destruct (re_search pat txt); [|done]. simpl.
  etrans; [apply strip_sublist | apply re_sub_sublist].
Qed.

Lemma parse_fold_sublist (pats : list (string * text))
    (st : text * list (R * string)) :
  (foldl EventParser.parse_step st pats).1 `sublist_of` st.1.
Proof.
  revert st. induction pats as [|ep pats IH]; intros st; [done|].
  cbn [foldl]. etrans; [apply IH | apply parse_step_sublist].
Qed.

(** X1: the parser only deletes characters: the clean text is the input
    with some characters left out, the others in their order, so it is
    never longer than the input. *)
Theorem parse_only_deletes (txt : text) :
  (EventParser.parse_events txt).1 `sublist_of` txt
  ∧ (length (EventParser.parse_events txt).1 <= length txt)%nat.
Proof.
  assert (H : (EventParser.parse_events txt).1 `sublist_of` txt)
    by apply (parse_fold_sublist _ (txt, [])).
  split; [exact H | by apply sublist_length].
Qed.

Lemma lstrip_fixed (s : text) :
  lstrip s = s <-> match s with c :: _ => isspace c = false | [] => True end.
Proof.
  destruct s as [|c s]; [done|]. simpl. destruct (isspace c) eqn:E.
  - split; [|done]. intros H.
    destruct (lstrip_split s) as (a & Hs & _).
    apply (f_equal length) in H, Hs. rewrite length_app in Hs. simpl in H. lia.
  - done.
Qed.

Lemma lstrip_idem (s : text) : lstrip (lstrip s) = lstrip s.
Proof.
  induction s as [|c s IH]; [done|]. simpl.
  destruct (isspace c) eqn:E; [done|]. simpl. by rewrite E.
Qed.

Lemma rstrip_idem (s : text) : rstrip (rstrip s) = rstrip s.
Proof. unfold rstrip. by rewrite reverse_involutive, lstrip_idem. Qed.

Lemma lstrip_rstrip_fixed (s : text) :
  lstrip s = s -> lstrip (rstrip s) = rstrip s.
Proof.
  intros H. apply lstrip_fixed. apply lstrip_fixed in H.
  destruct (rstrip_split s) as (b & Hs & Hb).
  destruct (rstrip s) as [|c r]; [done|].
  rewrite Hs in H. done.
Qed.

Lemma strip_idem (s : text) : strip (strip s) = strip s.
Proof.
  unfold strip. rewrite lstrip_rstrip_fixed by apply lstrip_idem.
  apply rstrip_idem.
Qed.

Lemma parse_fold_stripped (pats : list (string * text)) (txt : text)
    (evs : list (R * string)) :
  strip txt = txt ->
  strip (foldl EventParser.parse_step (txt, evs) pats).1
  = (foldl EventParser.parse_step (txt, evs) pats).1.
Proof.
  revert txt evs. induction pats as [|[ty pat] pats IH]; intros txt evs H; [done|].
  cbn [foldl EventParser.parse_step]. destruct (re_search pat txt).
  - apply IH, strip_idem.
  - by apply IH.
Qed.

Lemma parse_fold_trim (pats : list (string * text)) (txt : text)
    (evs : list (R * string)) :
  (foldl EventParser.parse_step (txt, evs) pats = (txt, evs))
  ∨ ((length evs < length (foldl EventParser.parse_step (txt, evs) pats).2)%nat
     ∧ strip (foldl EventParser.parse_step (txt, evs) pats).1
       = (foldl EventParser.parse_step (txt, evs) pats).1).
Proof.
  revert txt evs. induction pats as [|[ty pat] pats IH]; intros txt evs.
  - by left.
  - cbn [foldl EventParser.parse_step]. destruct (re_search pat txt).
    + right. split.
      * destruct (parse_fold_events pats (strip (re_sub pat txt))
                    (evs ++ [(0.5%R, ty)])) as (picked & _ & ->).
        rewrite !length_app. simpl. lia.
      * apply parse_fold_stripped, strip_idem.
    + apply IH.
Qed.

(** X2: white space is trimmed exactly when an event was found: with no
    event the text comes back as it was, and with at least one event the
    clean text has no white space left at either end. *)
Theorem parse_trims_with_events (txt : text) :
  ((EventParser.parse_events txt).2 = [] ->
   (EventParser.parse_events txt).1 = txt)
  ∧ ((EventParser.parse_events txt).2 ≠ [] ->
     strip (EventParser.parse_events txt).1 = (EventParser.parse_events txt).1).
Proof.
  unfold EventParser.parse_events.
  destruct (parse_fold_trim EventParser.EVENT_PATTERNS txt []) as [H|[Hlen Hs]].
  - rewrite H. simpl. done.
  - split; [|done]. intros Hnil. rewrite Hnil in Hlen. simpl in Hlen. lia.
Qed.

Lemma parse_fold_events_present (pats : list (string * text)) (txt : text)
    (evs : list (R * string)) (ty : string) :
  tag_patterns pats -> unnested false txt = true ->
  (0.5%R, ty) ∈ (foldl EventParser.parse_step (txt, evs) pats).2 ->
  (0.5%R, ty) ∈ evs ∨ ∃ pat, (ty, pat) ∈ pats ∧ occurs pat txt.
Proof.
  intros Hp. revert txt evs.
  induction Hp as [|ep pats Hep Hp IH]; intros txt evs Hu Hin; [by left|].
  cbn [foldl] in Hin.
  destruct (parse_step_unnested ep txt evs Hep Hu) as [Hu1 Hback].
  assert (Hevs : (EventParser.parse_step (txt, evs) ep).2 = evs
                 ∨ (EventParser.parse_step (txt, evs) ep).2
                   = evs ++ [(0.5%R, ep.1)] ∧ occurs ep.2 txt).
  { destruct ep as [ty0 pat0]. simpl.
    destruct (re_search pat0 txt) eqn:E; [|by left].
    right. split; [done|]. by apply re_search_occurs. }
  destruct (EventParser.parse_step (txt, evs) ep) as [txt1 evs1].
  simpl in Hu1, Hback, Hevs.
  destruct (IH txt1 evs1 Hu1 Hin) as [Hin1|(pat & Hpat & Ho)].
  - destruct Hevs as [->|[-> Ho]]; [by left|].
    apply elem_of_app in Hin1 as [?|Hin1]; [by left|].
    apply list_elem_of_singleton in Hin1. injection Hin1 as ->.
    right. exists ep.2. split; [|done]. destruct ep. apply elem_of_cons. by left.
  - right. exists pat. split; [apply elem_of_cons; by right|].
    assert (Hm : ∃ m, bracket_free m ∧ pat = bracketed m).
    { unfold tag_patterns in Hp. rewrite Forall_forall in Hp. apply (Hp _ Hpat). }
    destruct Hm as (m & Hm & ->). by apply (Hback m Hm).
Qed.

Lemma assoc_unique (l : list (string * text)) (k : string) (a b : text) :
  NoDup l.*1 -> (k, a) ∈ l -> (k, b) ∈ l -> a = b.
Proof.
  induction l as [|[k0 v0] l IH]; intros Hnd Ha Hb.
  - by apply elem_of_nil in Ha.
  - rewrite fmap_cons in Hnd. apply NoDup_cons in Hnd as [Hni Hnd].
    assert (Hfst : ∀ v, (k0, v) ∈ l -> False).
    { intros v Hv. apply Hni. apply list_elem_of_fmap. by exists (k0, v). }
    apply elem_of_cons in Ha as [Ha|Ha]; apply elem_of_cons in Hb as [Hb|Hb].
    + congruence.
    + injection Ha as -> ->. by apply Hfst in Hb.
    + injection Hb as -> ->. by apply Hfst in Ha.
    + by apply IH.
Qed.

Lemma event_names_distinct : NoDup EventParser.EVENT_PATTERNS.*1.
Proof. apply (bool_decide_unpack _). vm_compute. exact I. Qed.

(** X3: when no opening bracket stands between an opening bracket and
    the closing bracket after it, the parser emits the event of a marker
    type if and only if that marker occurs in the text. *)
Theorem parse_events_exactly_present (txt : text) (ty : string) (pat : text) :
  unnested false txt = true ->
  (ty, pat) ∈ EventParser.EVENT_PATTERNS ->
  ((0.5%R, ty) ∈ (EventParser.parse_events txt).2 <-> occurs pat txt).
Proof.
  intros Hu Hin. split.
  - intros Hev.
    destruct (parse_fold_events_present _ txt [] ty event_patterns_tags Hu Hev)
      as [Hnil|(pat' & Hin' & Ho)]; [by apply elem_of_nil in Hnil|].
    by rewrite (assoc_unique _ _ _ _ event_names_distinct Hin Hin').
  - intros Ho. apply (parse_fold_present _ txt [] ty pat);
      [apply event_patterns_tags | apply event_patterns_distinct | done | done].
Qed.

(** X4: when no opening bracket stands between an opening bracket and
    the closing bracket after it, parsing the clean text again finds no
    event and returns it unchanged. *)
Theorem parse_twice (txt : text) :
  unnested false txt = true ->
  EventParser.parse_events (EventParser.parse_events txt).1
  = ((EventParser.parse_events txt).1, []).
Proof.
  intros Hu. apply parse_fold_absent.
  pose proof event_patterns_tags as Ht. unfold tag_patterns in Ht.
  rewrite Forall_forall in Ht |- *. intros [ty pat] Hin.
  destruct (Ht _ Hin) as (n & Hn & Hpat). simpl in *. subst pat.
  destruct (re_search _ _) eqn:E; [|done].
  apply re_search_occurs in E.
  destruct (parse_fold_unnested _ txt [] event_patterns_tags Hu n Hn E)
    as [_ Hni].
  exfalso. apply Hni. apply list_elem_of_fmap. by exists (ty, bracketed n).
Qed.

Lemma parse_events_exactly_present_witness :
  (0.5%R, "sad"%string) ∈ (EventParser.parse_events (py "oh [sad] no")).2
  <-> occurs (py "[sad]") (py "oh [sad] no").
Proof.
  apply (parse_events_exactly_present (py "oh [sad] no") "sad" (py "[sad]")).
  - reflexivity.
  - apply (bool_decide_unpack _). vm_compute. exact I.
Defined.

Lemma parse_twice_witness :
  EventParser.parse_events (EventParser.parse_events (py "oh [sad] no")).1
  = ((EventParser.parse_events (py "oh [sad] no")).1, []).
Proof. apply parse_twice. reflexivity. Defined.

(** ** More on SubtitleGenerator *)

Section WrappingMore.
Import SubtitleGenerator.
Variable textbbox : font -> text -> Z * Z * Z * Z.
Variable f : font.
Variable max_width : Z.

Lemma wrap_groups (words cur : list text) :
  (cur ≠ [] -> line_group textbbox f max_width cur) ->
  ∃ gs,
    wrap_finish (wrap_words textbbox f max_width words [] cur)
    = match cur with
      | [] => leading_blank textbbox f max_width words
      | _ => []
      end ++ (join (py " ") <$> gs)
    ∧ concat gs = cur ++ words
    ∧ Forall (line_group textbbox f max_width) gs.
Proof.
  revert cur. induction words as [|w words IH]; intros cur Hcur.
  - destruct cur as [|c cur].
    + by exists [].
    + exists [c :: cur]. unfold wrap_finish. simpl.
      rewrite !app_nil_r. split; [done|]. split; [done|].
      constructor; [by apply Hcur | constructor].
  - cbn [wrap_words].
    destruct (line_width textbbox f (join (py " ") (cur ++ [w])) <=? max_width)
      eqn:E.
    + destruct (IH (cur ++ [w])) as (gs & Hw & Hc & Hg).
      { intros _. right. split; [by destruct cur|]. by apply Z.leb_le. }
      exists gs. rewrite Hw. split; [|split; [by rewrite Hc, <- app_assoc | done]].
      destruct cur as [|c cur]; simpl.
      * simpl in E. by rewrite E.
      * done.
    + rewrite wrap_words_lines.
      destruct (IH [w]) as (gs & Hw & Hc & Hg); [intros _; by left|].
      rewrite Hw. simpl. destruct cur as [|c cur].
      * exists gs. simpl in E. rewrite E. done.
      * exists ((c :: cur) :: gs). split; [done|]. split.
        -- simpl. by rewrite Hc.
        -- constructor; [by apply Hcur | done].
Qed.

(** X5: [wrap_text] loses, repeats and reorders no word: its lines,
    after the possible empty first line, are the words of the text cut into
    consecutive groups and joined with one space; and every group is one
    word alone or several words that fit the budget together. *)
Theorem wrap_text_groups (txt : text) :
  ∃ gs,
    wrap_text textbbox txt f max_width
    = leading_blank textbbox f max_width (split txt) ++ (join (py " ") <$> gs)
    ∧ concat gs = split txt
    ∧ Forall (line_group textbbox f max_width) gs.
Proof.
  rewrite wrap_text_finish.
  destruct (wrap_groups (split txt) []) as (gs & H1 & H2 & H3); [done|].
  by exists gs.
Qed.
End WrappingMore.

Lemma split_from_words (cur s : text) :
  Forall (fun w : text => w ≠ []) (split_from cur s).
Proof.
  revert cur. induction s as [|c s IH]; intros cur; simpl.
  - destruct cur; [constructor | by repeat constructor].
  - destruct (isspace c).
    + destruct cur; [apply IH | constructor; [done | apply IH]].
    + apply IH.
Qed.

Lemma join_group_nonempty (g : list text) :
  g ≠ [] -> Forall (fun w : text => w ≠ []) g -> join (py " ") g ≠ [].
Proof.
  intros Hg Hw. destruct g as [|w g]; [done|].
  apply Forall_cons in Hw as [Hw _]. destruct w as [|c w]; [done|].
  by destruct g.
Qed.

Section BlankLine.
Import SubtitleGenerator.
Variable textbbox : font -> text -> Z * Z * Z * Z.
Variable f : font.
Variable max_width : Z.

(** X6: [wrap_text] returns an empty line if and only if the first word
    of the text is wider than the budget on its own. *)
Theorem wrap_blank_line (txt : text) :
  [] ∈ wrap_text textbbox txt f max_width
  <-> ∃ w rest, split txt = w :: rest ∧ max_width < line_width textbbox f w.
Proof.
  rewrite wrap_text_finish.
  destruct (wrap_groups textbbox f max_width (split txt) [])
    as (gs & -> & Hc & Hg); [done|].
  assert (Hwords : Forall (fun w : text => w ≠ []) (concat gs)).
  { rewrite Hc. apply split_from_words. }
  assert (Hno : ([] : text) ∉ join (py " ") <$> gs).
  { intros Hin. apply list_elem_of_fmap in Hin as (g & Hj & Hin).
    symmetry in Hj. revert Hj. apply join_group_nonempty.
    - rewrite Forall_forall in Hg. destruct (Hg g Hin) as [Hl|[Hne _]]; [|done].
      by destruct g.
    - rewrite Forall_forall in Hwords |- *. intros w Hw. apply Hwords.
      apply list_elem_of_In, in_concat. exists g.
      by rewrite <- !list_elem_of_In. }
  rewrite elem_of_app. unfold leading_blank. split.
  - intros [Hin|Hin]; [|done].
    destruct (split txt) as [|w rest]; [by apply elem_of_nil in Hin|].
    destruct (line_width textbbox f w <=? max_width) eqn:E.
    + by apply elem_of_nil in Hin.
    + exists w, rest. split; [done|]. by apply Z.leb_gt.
  - intros (w & rest & -> & Hw). left. apply Z.leb_gt in Hw. rewrite Hw.
    apply elem_of_cons. by left.
Qed.
End BlankLine.

Section FontMissing.
Import SubtitleGenerator.
Variable loadable : Z -> bool.
Variable textbbox : font -> text -> Z * Z * Z * Z.
Variable multiline_textbbox : font -> text -> Z * Z * Z * Z.
Variable multiline_text : image -> Z * Z -> text -> font -> pixel -> image.

(** X7: when the TrueType file cannot be loaded at the base size, a base
    size above 20 makes the layout and [create_subtitle_mask] raise
    [OSError] (the loop loads the font outside any [try]), while a base
    size of 20 or less falls back to the built-in font and wraps nothing. *)
Theorem layout_without_font (w h : Z) (txt : text) (fontsize : Z) :
  loadable fontsize = false ->
  (20 < fontsize ->
   layout loadable textbbox w txt fontsize = Raises (Exception "OSError")
   ∧ create_subtitle_mask loadable textbbox multiline_textbbox multiline_text
       w h txt fontsize = Raises (Exception "OSError"))
  ∧ (fontsize <= 20 ->
     layout loadable textbbox w txt fontsize
     = Returns (Fitted fontsize DefaultFont [])).
Proof.
  intros Hl. split.
  - intros Hs.
    assert (H : layout loadable textbbox w txt fontsize
                = Raises (Exception "OSError")).
    { unfold layout. simp fit_font.
      destruct (decide (fontsize > 20)); [|lia]. simp fit_font.
      unfold truetype. rewrite Hl. by simp fit_font. }
    split; [exact H|]. unfold create_subtitle_mask. by rewrite H.
  - intros Hs. unfold layout, truetype. rewrite Hl. simp fit_font.
    destruct (decide (fontsize > 20)); [lia|]. by simp fit_font.
Qed.
End FontMissing.

(** ** More on DialogClip *)

Lemma py_int_bound (x : R) (z : Z) :
  (Rabs x <= IZR z)%R -> Z.abs (DialogClip.py_int x) <= z.
Proof.
  intros Hx. destruct (py_int_truncation x) as [Hpos Hneg].
  destruct (Rle_dec 0 x) as [H0|H0].
  - destruct (Hpos H0) as [H1 H2]. rewrite Rabs_right in Hx by lra.
    assert (DialogClip.py_int x <= z) by (apply le_IZR; lra).
    assert (-1 < DialogClip.py_int x) by (apply lt_IZR; simpl; lra).
    lia.
  - destruct (Hneg ltac:(lra)) as [H1 H2]. rewrite Rabs_left in Hx by lra.
    assert (- z <= DialogClip.py_int x) by (apply le_IZR; rewrite opp_IZR; lra).
    assert (DialogClip.py_int x < 1) by (apply lt_IZR; simpl; lra).
    lia.
Qed.

Lemma rounded_product_bound (fl np_sin : R -> R) (s : Z) (y : R) :
  amplitude_safe fl np_sin -> 0 <= s <= 30 ->
  (Rabs (fl (IZR s * np_sin y)) <= IZR s)%R.
Proof.
  intros (Hmono & Hint & Hsin) [Hs0 Hs30].
  pose proof (Hsin y) as [H1 H2].
  assert (H0 : (0 <= IZR s)%R) by (apply IZR_le in Hs0; exact Hs0).
  pose proof (Hmono (IZR s * np_sin y)%R (IZR s) ltac:(nra)) as Hup.
  pose proof (Hmono (IZR (- s)) (IZR s * np_sin y)%R
                ltac:(rewrite opp_IZR; nra)) as Hlow.
  rewrite Hint in Hup by lia. rewrite Hint in Hlow by lia.
  rewrite opp_IZR in Hlow. apply Rabs_le. lra.
Qed.

Lemma shake_amount_range (ty : string) :
  0 <= DialogClip.shake_amount_of ty <= 30.
Proof.
  destruct (decide (ty ∈ ["laugh"; "surprise"; "sad"; "excited"; "angry";
                          "confused"]%string)) as [Hin|Hni].
  - repeat (apply elem_of_cons in Hin as [->|Hin]; [by vm_compute|]).
    by apply elem_of_nil in Hin.
  - destruct (movement_default ty Hni) as [-> _]. lia.
Qed.

Lemma event_offset_bound (fl np_sin : R -> R) (ty : string) (t : R) :
  amplitude_safe fl np_sin ->
  Z.abs (DialogClip.event_offset fl np_sin ty t)
  <= DialogClip.shake_amount_of ty.
Proof.
  intros H. apply py_int_bound, rounded_product_bound; [done|].
  apply shake_amount_range.
Qed.

Lemma idle_offset_bound (fl np_sin : R -> R) (t : R) :
  amplitude_safe fl np_sin -> Z.abs (DialogClip.idle_offset fl np_sin t) <= 5.
Proof.
  intros H. apply py_int_bound, (rounded_product_bound fl np_sin 5); [done|lia].
Qed.

(** X8: the shake never exceeds its amplitude, in float arithmetic as
    well: as rounding keeps the order and the shake amounts are floats, an
    event offset is at most the shake amount of its type in absolute
    value, the idle offset at most 5, and whatever the events and the
    time, the offset of a frame is at most 30 pixels. *)
Theorem shake_bounded (fl np_sin : R -> R) (evs : list (R * string)) (t : R)
    (ty : string) :
  amplitude_safe fl np_sin ->
  Z.abs (DialogClip.event_offset fl np_sin ty t)
  <= DialogClip.shake_amount_of ty
  ∧ Z.abs (DialogClip.idle_offset fl np_sin t) <= 5
  ∧ Z.abs (DialogClip.shake fl np_sin evs t).1 <= 30.
Proof.
  intros H.
  split; [by apply event_offset_bound|]. split; [by apply idle_offset_bound|].
  unfold DialogClip.shake. rewrite shake_from.
  destruct (last _) as [[et ty']|].
  - pose proof (event_offset_bound fl np_sin ty' t H).
    pose proof (shake_amount_range ty'). simpl. lia.
  - pose proof (idle_offset_bound fl np_sin t H). lia.
Qed.

Lemma py_int_zero : DialogClip.py_int 0 = 0.
Proof.
  unfold DialogClip.py_int. destruct (Rle_dec 0 0) as [_|H]; [|lra].
  symmetry. apply Int_part_spec. simpl. lra.
Qed.

(** X9: at [t = 0] the offset is 0 whatever the events are, so the first
    frame shows both characters at their anchors; zero and its sine are
    exact in float arithmetic. *)
Theorem shake_at_start (fl np_sin : R -> R) (evs : list (R * string)) :
  zero_exact fl np_sin ->
  (DialogClip.shake fl np_sin evs 0).1 = 0.
Proof.
  intros [Hfl Hsin]. unfold DialogClip.shake. rewrite shake_from.
  destruct (last _) as [[et ty]|].
  - unfold DialogClip.event_offset. simpl.
    rewrite Rmult_0_l, Hfl, Hsin, Rmult_0_r, Hfl. apply py_int_zero.
  - unfold DialogClip.idle_offset.
    rewrite Rmult_0_l, Hfl, Hsin, Rmult_0_r, Hfl. apply py_int_zero.
Qed.

Lemma shake_records_from (fl np_sin : R -> R) (evs : list (R * string))
    (t : R) (offset : Z) (records : list log_record) :
  (foldl (DialogClip.event_step fl np_sin t) (offset, records) evs).2
  = records ++ event_records fl evs t.
Proof.
  revert offset records. induction evs as [|[et ty] evs IH]; intros offset records.
  - unfold event_records. simpl. by rewrite app_nil_r.
  - cbn [foldl DialogClip.event_step]. unfold event_records in *.
    rewrite filter_cons. simpl. destruct (DialogClip.active fl t et) eqn:E.
    + rewrite decide_True by done. rewrite IH, fmap_cons, <- app_assoc. done.
    + rewrite decide_False by done. apply IH.
Qed.

(** X10: rendering a frame sends one [Event triggered] record to the
    log for each event active at that time, in the order of the list, and
    nothing else. *)
Theorem shake_logs_active (fl np_sin : R -> R) (evs : list (R * string))
    (t : R) :
  (DialogClip.shake fl np_sin evs t).2 = event_records fl evs t
  ∧ length (DialogClip.shake fl np_sin evs t).2
    = length (filter (fun ev : R * string =>
                        DialogClip.active fl t ev.1 = true) evs).
Proof.
  assert (H : (DialogClip.shake fl np_sin evs t).2 = event_records fl evs t)
    by apply (shake_records_from fl np_sin evs t _ []).
  split; [exact H|]. rewrite H. unfold event_records. by rewrite length_fmap.
Qed.

Section RenderingMore.
Import DialogClip.
Variable fl : R -> R.
Variable np_sin : R -> R.
Variable loadable : Z -> bool.
Variable textbbox : font -> text -> Z * Z * Z * Z.
Variable multiline_textbbox : font -> text -> Z * Z * Z * Z.
Variable multiline_text : image -> Z * Z -> text -> font -> pixel -> image.
Variable paste : image -> image -> Z * Z -> image.

Local Abbreviation render :=
  (call fl np_sin loadable textbbox multiline_textbbox multiline_text paste).
Local Abbreviation caption self :=
  (SubtitleGenerator.create_subtitle_mask loadable textbbox
     multiline_textbbox multiline_text
     (frame_width self) (frame_height self) (clip_text self) 48).

(** X11: with the font file present, both sprites loaded with their
    alpha channel, and a paste and a text drawing that keep the mode and
    the size of the image they work on, a call copies the background,
    pastes the two sprites on the copy and stores that frame under one
    fresh reference, leaving every other image as it was, and adds to the
    log the records of the active events only.  When the background has
    the size of the frame, 1920 by 1080, and three channels, the call
    returns that frame with the caption laid over it; when the background
    has another size, the call raises [IndexError] at the masked
    assignment, after the frame is made. *)
Theorem call_effect (self : clip) (t : R) (s : store)
    (bg c1 c2 : image) (r1 r2 : positive) :
  (∀ size, loadable size = true) ->
  paste_keeps_canvas paste -> text_keeps_canvas multiline_text ->
  heap s !! background self = Some bg ->
  char1 self = Some r1 -> heap s !! r1 = Some c1 ->
  char2 self = Some r2 -> heap s !! r2 = Some c2 ->
  img_mode c1 = "RGBA"%string -> img_mode c2 = "RGBA"%string ->
  (∃ subtitle,
     caption self = Returns subtitle
     ∧ (img_width bg = frame_width self ->
        img_height bg = frame_height self ->
        three_band (img_mode bg) = true ->
        (render self t s).1
        = Returns (overlay_pixels
                     (img_pixels (pasted fl np_sin paste self t bg c1 c2))
                     (img_pixels subtitle))))
  ∧ (img_width bg ≠ frame_width self ∨ img_height bg ≠ frame_height self ->
     (render self t s).1 = Raises (Exception "IndexError"))
  ∧ heap (render self t s).2
    = <[fresh (dom (heap s)) := pasted fl np_sin paste self t bg c1 c2]>
        (heap s)
  ∧ heap s !! fresh (dom (heap s)) = None
  ∧ slog (render self t s).2 = slog s ++ event_records fl (events self) t.
Proof.
  intros Hfont Hpaste Htext Hbg Hr1 Hc1 Hr2 Hc2 _ _.
  destruct (caption_canvas loadable textbbox multiline_textbbox
              multiline_text Hfont Htext (frame_width self)
              (frame_height self) (clip_text self) 48)
    as (subtitle & Hcap & Hmode & Hsw & Hsh).
  assert (Hcanvas : same_canvas (pasted fl np_sin paste self t bg c1 c2) bg).
  { unfold pasted. eapply same_canvas_trans; apply Hpaste. }
  destruct Hcanvas as (Hm & Hpw & Hph).
  rewrite (call_with_sprites fl np_sin loadable textbbox multiline_textbbox
             multiline_text paste self t s bg c1 c2 r1 r2) by done.
  cbn [fst snd heap slog]. rewrite Hcap.
  split; [|split; [|split; [|split]]].
  - exists subtitle. split; [done|]. intros Hw Hh Hband.
    unfold overlay. rewrite Hmode, Hm, Hband.
    rewrite bool_decide_eq_true_2 by (split; congruence). done.
  - intros Hsize. unfold overlay. rewrite Hmode.
    rewrite bool_decide_eq_false_2; [done|].
    intros [Hw Hh]. destruct Hsize as [Hne|Hne]; apply Hne; congruence.
  - done.
  - apply not_elem_of_dom, is_fresh.
  - f_equal. apply (shake_records_from _ _ _ t _ []).
Qed.

(** X12: when a sprite is [None], as after a failed [scale_image], the
    call raises [AttributeError]; the background copy is already made, and
    nothing is logged. *)
Theorem call_missing_sprite (self : clip) (t : R) (s : store) (bg : image) :
  heap s !! background self = Some bg ->
  char1 self = None ∨ char2 self = None ->
  (render self t s).1 = Raises (Exception "AttributeError")
  ∧ heap (render self t s).2 = <[fresh (dom (heap s)) := bg]> (heap s)
  ∧ slog (render self t s).2 = slog s.
Proof.
  intros Hbg Hnone.
  by rewrite (call_without_sprite fl np_sin loadable textbbox
                multiline_textbbox multiline_text paste self t s bg).
Qed.
End RenderingMore.

(** ** More on VideoCreator *)

Section ClipsMore.
Import AudioGenerator VideoCreator.
Variable fl : R -> R.
Variable np_sin : R -> R.
Variable loadable : Z -> bool.
Variable textbbox : font -> text -> Z * Z * Z * Z.
Variable multiline_textbbox : font -> text -> Z * Z * Z * Z.
Variable multiline_text : image -> Z * Z -> text -> font -> pixel -> image.
Variable paste : image -> image -> Z * Z -> image.
Variable audio_duration : list N -> option R.

Local Abbreviation clips_of :=
  (make_clips fl np_sin loadable textbbox multiline_textbbox multiline_text
     paste audio_duration).

(** X14: clip building fails fast: when the audio file of some turn is
    missing or does not decode, [make_clips] raises and returns no clip,
    and it never changes the files.  The exception is that of the first
    turn that fails: with the images in place and the font present, so
    that the first frame of every turn can be rendered, it is the
    [OSError] of the unreadable file. *)
Theorem make_clips_fails_fast (bg : positive) (s1 s2 : option positive)
    (k : nat) (pre : list (text * (string * list (R * string))))
    (txt : text) (f : string) (evs : list (R * string))
    (post : list (text * (string * list (R * string)))) (w : world)
    (h : gmap positive image) :
  files w !! f = None
  ∨ (∃ bytes, files w !! f = Some bytes ∧ audio_duration bytes = None) ->
  (∃ e, (clips_of bg s1 s2 k (pre ++ (txt, (f, evs)) :: post) w h).1.1
        = Raises e)
  ∧ files (clips_of bg s1 s2 k (pre ++ (txt, (f, evs)) :: post) w h).1.2
    = files w
  ∧ (staged bg s1 s2 h -> (∀ size, loadable size = true) ->
     paste_keeps_canvas paste -> text_keeps_canvas multiline_text ->
     (clips_of bg s1 s2 k (pre ++ (txt, (f, evs)) :: post) w h).1.1
     = Raises (Exception "OSError")).
Proof.
  intros Hbad. apply (AudioFileClip_unreadable audio_duration) in Hbad.
  split; [by apply make_clips_raises|]. split; [apply make_clips_files|].
  intros Hst Hfont Hpaste Htext. by apply make_clips_oserror.
Qed.
End ClipsMore.

Lemma string_app_length (a b : string) :
  String.length (a +:+ b) = (String.length a + String.length b)%nat.
Proof. induction a as [|c a IH]; simpl; [done | by rewrite IH]. Qed.

Lemma string_app_inj_l (a b s : string) : a +:+ s = b +:+ s -> a = b.
Proof.
  revert b. induction a as [|c a IH]; intros [|d b] H; simpl in H.
  - done.
  - apply (f_equal String.length) in H.
    rewrite !string_app_length in H. simpl in H. exfalso. lia.
  - apply (f_equal String.length) in H.
    rewrite !string_app_length in H. simpl in H. exfalso. lia.
  - injection H as -> H. by rewrite (IH b H).
Qed.

Lemma audio_file_distinct (i j : nat) :
  VideoCreator.audio_file i = VideoCreator.audio_file j -> i = j.
Proof.
  unfold VideoCreator.audio_file. intros H.
  apply (inj (String.app "dialog_")) in H.
  apply string_app_inj_l in H. by apply (inj pretty) in H.
Qed.

(** X15: different turns get different audio files. *)
Theorem audio_file_inj (i j : nat) :
  VideoCreator.audio_file i = VideoCreator.audio_file j <-> i = j.
Proof. split; [apply audio_file_distinct | by intros ->]. Qed.

Lemma foldl_delete_lookup (l : list string) (m : gmap string (list N))
    (k : string) :
  foldl (fun m f => delete f m) m l !! k
  = if decide (k ∈ l) then None else m !! k.
Proof.
  revert m. induction l as [|x l IH]; intros m.
  - cbn [foldl]. destruct (decide (k ∈ [])) as [H|_]; [|done].
    by apply elem_of_nil in H.
  - cbn [foldl]. rewrite IH.
    destruct (decide (k ∈ l)) as [Hin|Hni];
      destruct (decide (k ∈ x :: l)) as [Hin'|Hni']; try done.
    + exfalso. apply Hni'. apply elem_of_cons. by right.
    + apply elem_of_cons in Hin' as [->|?]; [|done]. apply lookup_delete_eq.
    + apply lookup_delete_ne. intros ->. apply Hni'. apply elem_of_cons. by left.
Qed.

Section PipelineMore.
Import AudioGenerator VideoCreator.
Variable fl : R -> R.
Variable np_sin : R -> R.
Variable loadable : Z -> bool.
Variable textbbox : font -> text -> Z * Z * Z * Z.
Variable multiline_textbbox : font -> text -> Z * Z * Z * Z.
Variable multiline_text : image -> Z * Z -> text -> font -> pixel -> image.
Variable paste : image -> image -> Z * Z -> image.
Variable gtts_save :
  text -> string -> string -> gmap string (list N)
  -> option exn * gmap string (list N).
Variable playht_stream :
  text -> string -> string -> gmap string (list N)
  -> option exn * gmap string (list N).
Variable audio_duration : list N -> option R.
Variable write_videofile : timeline -> string -> world -> option exn * world.

Local Abbreviation build :=
  (build_final_video fl np_sin loadable textbbox multiline_textbbox
     multiline_text paste gtts_save playht_stream audio_duration).
Local Abbreviation create :=
  (create_conversation_video_oop fl np_sin loadable textbbox
     multiline_textbbox multiline_text paste gtts_save playht_stream
     audio_duration write_videofile).

(** X16: the audio files are removed only on success.  A run that
    returns has built the final video and written it without an
    exception; afterwards no [dialog_i.mp3] of a turn is left, and every
    other file is as the writer left it.  A run that raises has removed
    nothing: either the build raised, and the files and the log are those
    the build left, or the writer raised, and they are those the writer
    left. *)
Theorem cleanup_only_on_success (bg : positive) (s1 s2 : option positive)
    (texts : list text) (languages : list string) (output_path : string)
    (w : world) (h : gmap positive image) :
  ((create bg s1 s2 texts languages output_path w h).1.1 = Returns () ->
   ∃ final_video w2,
     (build bg s1 s2 texts languages w h).1.1 = Returns final_video
     ∧ write_videofile final_video output_path
         (build bg s1 s2 texts languages w h).1.2 = (None, w2)
     ∧ (∀ i, (i < length texts)%nat ->
          files (create bg s1 s2 texts languages output_path w h).1.2
            !! audio_file i = None)
     ∧ (∀ f, (∀ i, (i < length texts)%nat -> f ≠ audio_file i) ->
          files (create bg s1 s2 texts languages output_path w h).1.2 !! f
          = files w2 !! f))
  ∧ (∀ e, (create bg s1 s2 texts languages output_path w h).1.1 = Raises e ->
       ((build bg s1 s2 texts languages w h).1.1 = Raises e
        ∧ (create bg s1 s2 texts languages output_path w h).1.2
          = (build bg s1 s2 texts languages w h).1.2)
       ∨ (∃ final_video,
            (build bg s1 s2 texts languages w h).1.1 = Returns final_video
            ∧ write_videofile final_video output_path
                (build bg s1 s2 texts languages w h).1.2
              = (Some e,
                 (create bg s1 s2 texts languages output_path w h).1.2))).
Proof.
  unfold create_conversation_video_oop.
  destruct (build bg s1 s2 texts languages w h) as [[[e|tl] w1] h1].
  { split; [done|]. intros e' [= <-]. by left. }
  cbn [fst snd].
  destruct (write_videofile tl output_path w1) as [[e|] w2] eqn:Ew.
  { split; [done|]. intros e' [= <-]. right. by exists tl. }
  split; [|done].
  intros _. exists tl, w2. cbn [fst snd emit files].
  split; [done|]. split; [done|]. split.
  - intros i Hi. rewrite foldl_delete_lookup, decide_True; [done|].
    apply list_elem_of_fmap. exists i. split; [done|].
    apply elem_of_seq. lia.
  - intros f Hf. rewrite foldl_delete_lookup, decide_False; [done|].
    intros Hin. apply list_elem_of_fmap in Hin as (i & -> & Hi).
    apply elem_of_seq in Hi. apply (Hf i); [lia | done].
Qed.
End PipelineMore.

Section MissingLanguage.
Import AudioGenerator VideoCreator.
Variable fl : R -> R.
Variable np_sin : R -> R.
Variable loadable : Z -> bool.
Variable textbbox : font -> text -> Z * Z * Z * Z.
Variable multiline_textbbox : font -> text -> Z * Z * Z * Z.
Variable multiline_text : image -> Z * Z -> text -> font -> pixel -> image.
Variable paste : image -> image -> Z * Z -> image.
Variable gtts_save :
  text -> string -> string -> gmap string (list N)
  -> option exn * gmap string (list N).
Variable playht_stream :
  text -> string -> string -> gmap string (list N)
  -> option exn * gmap string (list N).
Variable audio_duration : list N -> option R.

Local Abbreviation clips_of :=
  (make_clips fl np_sin loadable textbbox multiline_textbbox multiline_text
     paste audio_duration).
Local Abbreviation build :=
  (build_final_video fl np_sin loadable textbbox multiline_textbbox
     multiline_text paste gtts_save playht_stream audio_duration).

Lemma generate_all_keeps (s1 s2 : option positive) (i : nat)
    (jobs : list (text * (string * (string * list (R * string)))))
    (w : world) (f0 : string) :
  own_file_only gtts_save -> own_file_only playht_stream ->
  Forall (fun job : text * (string * (string * list (R * string))) =>
            job.2.1 ≠ f0) jobs ->
  files (generate_all gtts_save playht_stream s1 s2 i jobs w).2 !! f0
  = files w !! f0.
Proof.
  intros Hg Hp Hjobs. revert i w.
  induction Hjobs as [|[txt [f [lang evs]]] jobs Hne _ IH]; intros i w; [done|].
  cbn [generate_all]. simpl in Hne.
  destruct (decide (lang = "en"%string)) as [Hen|Hid].
  - unfold generate_playht.
    pose proof (Hp txt (voice_url (if in_first_half i then host s1 else maya s2))
                  f (files w) f0 ltac:(done)) as Hkeep.
    destruct (playht_stream _ _ _ _) as [[e|] fs]; simpl in Hkeep;
      rewrite IH; done.
  - unfold generate_gtts.
    pose proof (Hg txt "id"%string f (files w) f0 ltac:(done)) as Hkeep.
    destruct (gtts_save _ _ _ _) as [[e|] fs]; simpl in Hkeep;
      rewrite IH; done.
Qed.

(** X18: a text without a language is not skipped, it makes the build
    fail: when there are fewer languages than texts, the providers write no
    file but their own, and the audio file of the first text without a
    language is not on disk, the build raises; with the images in place
    and the font present, so that the first frame of every turn before it
    can be rendered, what it raises is the [OSError] of the missing
    file. *)
Theorem missing_language_fails (bg : positive) (s1 s2 : option positive)
    (texts : list text) (languages : list string) (w : world)
    (h : gmap positive image) :
  own_file_only gtts_save -> own_file_only playht_stream ->
  (length languages < length texts)%nat ->
  files w !! audio_file (length languages) = None ->
  (∃ e, (build bg s1 s2 texts languages w h).1.1 = Raises e)
  ∧ (staged bg s1 s2 h -> (∀ size, loadable size = true) ->
     paste_keeps_canvas paste -> text_keeps_canvas multiline_text ->
     (build bg s1 s2 texts languages w h).1.1 = Raises (Exception "OSError")).
Proof.
  intros Hg Hp Hlen Hnone. unfold build_final_video.
  pose proof (parse_texts_map texts
                (emit (LogInfo "Starting video creation process" []) w)) as Hpm.
  pose proof (parse_texts_files texts
                (emit (LogInfo "Starting video creation process" []) w)) as Hpf.
  destruct (parse_texts texts _) as [[ps es] w1]. simpl in Hpm, Hpf.
  injection Hpm as -> ->.
  set (jobs := zip _ (zip _ (zip languages _))).
  pose proof (generate_all_returns gtts_save playht_stream s1 s2 0 jobs w1) as Hr.
  pose proof (generate_all_keeps s1 s2 0 jobs w1
                (audio_file (length languages)) Hg Hp) as Hk.
  destruct (generate_all _ _ _ _ _ _ _) as [[e|u] w2]; [done|].
  simpl in Hk.
  assert (Habsent : files w2 !! audio_file (length languages) = None).
  { rewrite Hk, Hpf; [done|]. subst jobs.
    apply Forall_forall. intros [txt [f [lang evs]]] Hin. simpl.
    apply list_elem_of_lookup in Hin as [j Hj].
    apply lookup_zip_with_Some in Hj as (c & y1 & Heq1 & _ & Hj).
    apply lookup_zip_with_Some in Hj as (f' & y2 & Heq2 & Ef & Hj).
    apply lookup_zip_with_Some in Hj as (l & ev & Heq3 & El & _).
    subst y2 y1. injection Heq1 as _ <- _ _.
    apply lookup_lt_Some in El.
    rewrite (audio_files_lookup 0) in Ef by lia. injection Ef as <-.
    intros Heq. apply audio_file_distinct in Heq. simpl in Heq. lia. }
  destruct (lookup_lt_is_Some_2 texts _ Hlen) as [txt Ht].
  pose proof (clip_jobs_lookup texts _ txt Ht) as Hjob.
  rewrite <- (take_drop_middle _ _ _ Hjob).
  assert (Hbad : AudioFileClip audio_duration (audio_file (length languages)) w2
                 = Raises (Exception "OSError"))
    by (apply AudioFileClip_unreadable; by left).
  split.
  - destruct (make_clips_raises fl np_sin loadable textbbox multiline_textbbox
                multiline_text paste audio_duration bg s1 s2 0
                (take (length languages)
                   (zip ((fun t => (EventParser.parse_events t).1) <$> texts)
                      (zip (map audio_file (seq 0 (length texts)))
                         ((fun t => (EventParser.parse_events t).2) <$> texts))))
                (EventParser.parse_events txt).1 (audio_file (length languages))
                (EventParser.parse_events txt).2
                (drop (S (length languages))
                   (zip ((fun t => (EventParser.parse_events t).1) <$> texts)
                      (zip (map audio_file (seq 0 (length texts)))
                         ((fun t => (EventParser.parse_events t).2) <$> texts))))
                w2 h Hbad) as [e He].
    destruct (clips_of _ _ _ _ _ _ _) as [[[e'|clips] w3] h3]; simpl in He.
    + by exists e'.
    + discriminate He.
  - intros Hst Hfont Hpaste Htext.
    pose proof (make_clips_oserror fl np_sin loadable textbbox
                  multiline_textbbox multiline_text paste audio_duration
                  Hfont Hpaste Htext bg s1 s2 0
                  (take (length languages)
                     (zip ((fun t => (EventParser.parse_events t).1) <$> texts)
                        (zip (map audio_file (seq 0 (length texts)))
                           ((fun t => (EventParser.parse_events t).2) <$> texts))))
                  (EventParser.parse_events txt).1 (audio_file (length languages))
                  (EventParser.parse_events txt).2
                  (drop (S (length languages))
                     (zip ((fun t => (EventParser.parse_events t).1) <$> texts)
                        (zip (map audio_file (seq 0 (length texts)))
                           ((fun t => (EventParser.parse_events t).2) <$> texts))))
                  w2 h Hst Hbad) as He.
    destruct (clips_of _ _ _ _ _ _ _) as [[[e'|clips] w3] h3]; simpl in He.
    + by injection He as ->.
    + discriminate He.
Qed.
End MissingLanguage.

Lemma unrounded_safe : amplitude_safe unrounded sin.
Proof.
  split; [|split].
  - by intros x y H.
  - by intros n _.
  - intros x. pose proof (SIN_bound x). lra.
Qed.

Lemma unrounded_zero : zero_exact unrounded sin.
Proof. split; [done | apply sin_0]. Qed.

Lemma shake_bounded_witness :
  Z.abs (DialogClip.shake unrounded sin [(0.5%R, "angry"%string)] 0.6).1 <= 30.
Proof.
  exact (proj2 (proj2 (shake_bounded unrounded sin [(0.5%R, "angry"%string)]
                         0.6%R "angry" unrounded_safe))).
Defined.

Lemma shake_at_start_witness :
  (DialogClip.shake unrounded sin [(0%R, "angry"%string)] 0).1 = 0.
Proof. exact (shake_at_start unrounded sin [(0%R, "angry"%string)] unrounded_zero). Defined.

Lemma layout_without_font_witness :
  SubtitleGenerator.layout (fun _ => false) mono_bbox 1920 (py "Hello") 48
  = Raises (Exception "OSError").
Proof.
  destruct (layout_without_font (fun _ => false) mono_bbox mono_bbox
              (fun m _ _ _ _ => m) 1920 1080 (py "Hello") 48 eq_refl)
    as [H _].
  apply H. lia.
Defined.

Lemma call_effect_witness :
  let s := DialogClip.Store example_images [] in
  let self := DialogClip.init 1 (Some 2%positive) (Some 3%positive) (py "Hi")
                1 3.5 [(0.5%R, "laugh"%string)] in
  let render := DialogClip.call unrounded sin (fun _ => true) mono_bbox mono_bbox
                  corner_text corner_paste in
  ∃ subtitle,
    SubtitleGenerator.create_subtitle_mask (fun _ => true) mono_bbox
      mono_bbox corner_text 1920 1080 (py "Hi") 48 = Returns subtitle
    ∧ (render self 0.6%R s).1
      = Returns (DialogClip.overlay_pixels
                   (img_pixels (pasted unrounded sin corner_paste self 0.6
                                  example_background example_sprite
                                  example_sprite))
                   (img_pixels subtitle)).
Proof.
  intros s self render.
  destruct (call_effect unrounded sin (fun _ => true) mono_bbox mono_bbox
              corner_text corner_paste self 0.6%R s
              example_background example_sprite example_sprite
              2%positive 3%positive (fun _ => eq_refl) corner_paste_canvas
              corner_text_canvas eq_refl eq_refl eq_refl eq_refl eq_refl
              eq_refl eq_refl) as ((subtitle & Hcap & Hret) & _).
  exists subtitle. split; [exact Hcap|].
  exact (Hret eq_refl eq_refl eq_refl).
Defined.

Lemma call_missing_sprite_witness :
  let s := DialogClip.Store example_images [] in
  let self := DialogClip.init 1 None None (py "Hi") 1 3.5 [] in
  (DialogClip.call unrounded sin (fun _ => true) mono_bbox mono_bbox
     corner_text corner_paste self 0.6%R s).1
  = Raises (Exception "AttributeError").
Proof.
  intros s self.
  destruct (call_missing_sprite unrounded sin (fun _ => true) mono_bbox mono_bbox
              corner_text corner_paste self 0.6%R s
              example_background eq_refl (or_introl eq_refl))
    as [H _].
  exact H.
Defined.

Lemma make_clips_fails_fast_witness :
  (VideoCreator.make_clips unrounded sin (fun _ => true) mono_bbox mono_bbox
     corner_text corner_paste example_duration 1 (Some 2%positive)
     (Some 3%positive) 0
     [(py "a", ("dialog_0.mp3"%string, []));
      (py "b", ("dialog_1.mp3"%string, []))]
     (AudioGenerator.World {[ "dialog_0.mp3"%string := [30%N] ]} [])
     example_images).1.1
  = Raises (Exception "OSError").
Proof.
  refine (proj2 (proj2 (make_clips_fails_fast unrounded sin (fun _ => true)
                          mono_bbox mono_bbox corner_text corner_paste
                          example_duration 1 (Some 2%positive)
                          (Some 3%positive) 0
                          [(py "a", ("dialog_0.mp3"%string, []))]
                          (py "b") "dialog_1.mp3" [] []
                          (AudioGenerator.World
                             {[ "dialog_0.mp3"%string := [30%N] ]} [])
                          example_images _))
            example_staged (fun _ => eq_refl) corner_paste_canvas
            corner_text_canvas).
  left. reflexivity.
Defined.

Lemma cleanup_only_on_success_witness :
  let write := fun (_ : VideoCreator.timeline) (output_path : string)
                   (w : AudioGenerator.world) =>
                 (@None exn,
                  AudioGenerator.World
                    (<[output_path := [1%N]]> (AudioGenerator.files w))
                    (AudioGenerator.log w)) in
  let ran := VideoCreator.create_conversation_video_oop unrounded sin
               (fun _ => true) mono_bbox mono_bbox corner_text corner_paste
               failing_gtts working_playht example_duration write
               1 (Some 2%positive) (Some 3%positive)
               [py "Hi"] ["en"%string] "output.mp4"
               (AudioGenerator.World ∅ []) example_images in
  ran.1.1 = Returns ()
  ∧ AudioGenerator.files ran.1.2 !! VideoCreator.audio_file 0 = None.
Proof.
  intros write ran.
  assert (Hran : ran.1.1 = Returns ()).
  { subst ran. unfold VideoCreator.create_conversation_video_oop.
    destruct (build_returns unrounded sin (fun _ => true) mono_bbox mono_bbox
                corner_text corner_paste failing_gtts working_playht
                example_duration (fun _ => eq_refl) corner_paste_canvas
                corner_text_canvas 1 (Some 2%positive) (Some 3%positive)
                [py "Hi"] ["en"%string] (AudioGenerator.World ∅ [])
                example_images example_staged)
      as (final_video & w' & h' & ->).
    - intros [|i] Hi; [|simpl in Hi; lia].
      exists 3.0%R. vm_compute. reflexivity.
    - reflexivity. }
  split; [exact Hran|].
  destruct (proj1 (cleanup_only_on_success unrounded sin (fun _ => true)
                     mono_bbox mono_bbox corner_text corner_paste
                     failing_gtts working_playht example_duration write
                     1 (Some 2%positive) (Some 3%positive)
                     [py "Hi"] ["en"%string] "output.mp4"
                     (AudioGenerator.World ∅ []) example_images) Hran)
    as (final_video & w2 & _ & _ & Hgone & _).
  apply (Hgone 0%nat). simpl. lia.
Defined.

Lemma example_providers_own_file :
  own_file_only failing_gtts ∧ own_file_only working_playht.
Proof.
  split; intros txt arg output_file fs f Hne; simpl.
  - done.
  - by apply lookup_insert_ne.
Qed.

Lemma missing_language_fails_witness :
  (VideoCreator.build_final_video unrounded sin (fun _ => true) mono_bbox
     mono_bbox corner_text corner_paste failing_gtts working_playht
     example_duration 1 (Some 2%positive) (Some 3%positive)
     [py "Hi"; py "Bye"] ["en"%string] (AudioGenerator.World ∅ [])
     example_images).1.1
  = Raises (Exception "OSError").
Proof.
  refine (proj2 (missing_language_fails unrounded sin (fun _ => true) mono_bbox
                   mono_bbox corner_text corner_paste failing_gtts
                   working_playht example_duration 1 (Some 2%positive)
                   (Some 3%positive) [py "Hi"; py "Bye"] ["en"%string]
                   (AudioGenerator.World ∅ []) example_images
                   (proj1 example_providers_own_file)
                   (proj2 example_providers_own_file) _ _)
            example_staged (fun _ => eq_refl) corner_paste_canvas
            corner_text_canvas).
  - simpl. lia.
  - reflexivity.
Defined.
